(** * staratlaspy: account decoder and instruction encoder

    A shallow embedding of

    - [src/faction/accounts/player_faction_data.py]
      (class [PlayerFactionData]: [fetch], [fetch_multiple], [decode],
      [to_json], [from_json]), and
    - [src/score/instructions/process_withdraw_fuel.py]
      (function [process_withdraw_fuel])

    together with the library functions these two files call
    ([construct]/[borsh_construct] field parsers, [solana.publickey.PublicKey],
    [base58]), which are modelled by their behaviour on the inputs the two
    files give them.

    Python exceptions are values of [exception]; a call that may raise has a
    result in [result A].  Python [bytes] are lists of [byte]; Python [int]
    is [Z]; Python [str] is [string]; a [dict] keyed by strings is a
    [gmap string _].  The program identity [PROGRAM_ID] (module
    [program_id], which the two files import) and [base64.b64decode] are
    section variables: every statement holds for any value of them. *)

From Stdlib Require Import ZArith Lia Strings.Byte Ascii String List.
From stdpp Require Import base option list gmap strings.
Import ListNotations.

#[local] Open Scope Z_scope.

(** ** Exceptions and results *)

Inductive exception : Type :=
| KeyError (key : string)                 (* dict[key] on a missing key *)
| ValueError (msg : string)
| AccountInvalidDiscriminator (msg : string)   (* anchorpy.error *)
| StreamError                             (* construct: stream read less than specified amount *)
| FormatFieldError                        (* construct: struct.pack refused the value *)
| binascii_Error.                         (* base64.b64decode on malformed text *)

Inductive result (A : Type) : Type :=
| Ok (a : A)
| Raise (e : exception).
Arguments Ok {A} a.
Arguments Raise {A} e.

#[global] Instance result_ret : MRet result := fun _ a => Ok a.
#[global] Instance result_bind : MBind result := fun _ _ f m =>
  match m with
  | Ok a => f a
  | Raise e => Raise e
  end.

Definition is_Ok {A} (r : result A) : Prop := exists a, r = Ok a.

(** ** Bytes and integers *)

Abbreviation bytes := (list byte).

#[global] Instance byte_eq_dec : EqDecision byte := Byte.byte_eq_dec.

Definition byte_to_Z (b : byte) : Z := Z.of_N (Byte.to_N b).

(** [bytes([z])]: defined for [0 <= z <= 255] only. *)
Definition byte_of_Z (z : Z) : option byte :=
  if decide (0 <= z) then Byte.of_N (Z.to_N z) else None.

(** [int.from_bytes(b, "little")] *)
Fixpoint int_from_bytes_little (b : bytes) : Z :=
  match b with
  | [] => 0
  | x :: rest => byte_to_Z x + 256 * int_from_bytes_little rest
  end.

(** [int.from_bytes(b, "big")] *)
Definition int_from_bytes_big (b : bytes) : Z :=
  fold_left (fun acc x => acc * 256 + byte_to_Z x) b 0.

(** The byte of a number already reduced modulo 256. *)
Definition byte_of_residue (z : Z) : byte :=
  default x00 (byte_of_Z (z mod 256)).

(** [acc.to_bytes(length, "big")], for [0 <= acc < 256 ^ length]. *)
Fixpoint int_to_bytes_big (length : nat) (acc : Z) : bytes :=
  match length with
  | O => []
  | S n => int_to_bytes_big n (acc / 256) ++ [byte_of_residue acc]
  end.

(** [acc.bit_length()] for [0 <= acc]. *)
Definition bit_length (acc : Z) : Z :=
  if decide (acc = 0) then 0 else Z.log2 acc + 1.

(** [s.lstrip(c)]: drop the leading copies of [c]. *)
Fixpoint lstrip {A} `{EqDecision A} (c : A) (s : list A) : list A :=
  match s with
  | [] => []
  | x :: rest => if decide (x = c) then lstrip c rest else s
  end.

(** [s.rjust(width, c)] *)
Definition rjust {A} (width : nat) (c : A) (s : list A) : list A :=
  replicate (width - length s) c ++ s.

(** ** The [base58] package (Bitcoin alphabet), as [solana.publickey] uses it *)

Module base58.

Definition BITCOIN_ALPHABET : list ascii :=
  list_ascii_of_string
    "123456789ABCDEFGHJKLMNPQRSTUVWXYZabcdefghijkmnopqrstuvwxyz".

(** [alphabet[idx:idx+1]] *)
Definition alphabet_at (idx : Z) : ascii :=
  nth (Z.to_nat idx) BITCOIN_ALPHABET "1"%char.

(** The decode map: the position of a character in the alphabet. *)
Fixpoint index_from (c : ascii) (alphabet : list ascii) (pos : Z) : option Z :=
  match alphabet with
  | [] => None
  | a :: rest => if decide (a = c) then Some pos else index_from c rest (pos + 1)
  end.

Definition decode_map (c : ascii) : option Z := index_from c BITCOIN_ALPHABET 0.

(** [b58encode_int(i, default_one=False)]:
<<
    string = bytes()
    while i:
        i, idx = divmod(i, base)
        string = alphabet[idx:idx+1] + string
>>
    The loop runs at most [i.bit_length()] times, which is the fuel. *)
Fixpoint b58encode_int_loop (fuel : nat) (i : Z) (string : list ascii)
  : list ascii :=
  match fuel with
  | O => string
  | S fuel' =>
      if decide (i = 0) then string
      else b58encode_int_loop fuel' (i / 58) (alphabet_at (i mod 58) :: string)
  end.

Definition b58encode_int (i : Z) : list ascii :=
  b58encode_int_loop (Z.to_nat (bit_length i)) i [].

(** [b58encode(v)]: leading zero bytes become leading ['1'] characters. *)
Definition b58encode (v : bytes) : string :=
  let origlen := length v in
  let v' := lstrip x00 v in
  let newlen := length v' in
  let acc := int_from_bytes_big v' in
  let result := b58encode_int acc in
  string_of_list_ascii (replicate (origlen - newlen) "1"%char ++ result).

(** Characters [str.rstrip()] removes, among the code points below 256. *)
Definition is_space (c : ascii) : bool :=
  let n := N_of_ascii c in
  ((9 <=? n) && (n <=? 13) || (28 <=? n) && (n <=? 32)
   || (n =? 133) || (n =? 160))%N.

Fixpoint rstrip (s : list ascii) : list ascii :=
  match s with
  | [] => []
  | c :: rest =>
      match rstrip rest with
      | [] => if is_space c then [] else [c]
      | rest' => c :: rest'
      end
  end.

(** The accumulation loop of [b58decode_int]; [None] is its [ValueError]
    ("Invalid character"). *)
Fixpoint b58decode_int_loop (v : list ascii) (decimal : Z) : option Z :=
  match v with
  | [] => Some decimal
  | char :: rest =>
      match decode_map char with
      | Some d => b58decode_int_loop rest (decimal * 58 + d)
      | None => None
      end
  end.

Definition b58decode_int (v : list ascii) : option Z :=
  b58decode_int_loop (rstrip v) 0.

(** [b58decode(v)]; [None] is [ValueError]. *)
Definition b58decode (v : string) : option bytes :=
  let v := rstrip (list_ascii_of_string v) in
  let origlen := length v in
  let v' := lstrip "1"%char v in
  let newlen := length v' in
  match b58decode_int v' with
  | Some acc =>
      Some (int_to_bytes_big
              (origlen - newlen + Z.to_nat ((bit_length acc + 7) / 8)) acc)
  | None => None
  end.

End base58.

(** ** [solana.publickey.PublicKey] *)

Record PublicKey : Type := { _key : bytes }.

#[global] Instance PublicKey_eq_dec : EqDecision PublicKey.
Proof. solve_decision. Defined.

Module PublicKeyOps.

Definition LENGTH : nat := 32.

Definition invalid_input : exception := ValueError "invalid public key input:".

(** [PublicKey(value)] for [value : bytes] *)
Definition of_bytes (value : bytes) : result PublicKey :=
  if decide (LENGTH < length value)%nat then Raise invalid_input
  else Ok {| _key := value |}.

(** [PublicKey(value)] for [value : str] *)
Definition of_str (value : string) : result PublicKey :=
  match base58.b58decode value with
  | None => Raise invalid_input
  | Some key =>
      if decide (length key = LENGTH) then Ok {| _key := key |}
      else Raise invalid_input
  end.

(** [bytes(pk)]: the key, left-padded with zero bytes to [LENGTH]. *)
Definition to_bytes (pk : PublicKey) : bytes :=
  if decide (length (_key pk) = LENGTH) then _key pk
  else rjust LENGTH x00 (_key pk).

(** [str(pk)] *)
Definition str (pk : PublicKey) : string := base58.b58encode (to_bytes pk).

(** [pk == other] *)
Definition eqb (pk other : PublicKey) : bool :=
  bool_decide (to_bytes pk = to_bytes other).

(** A key as the chain has it: exactly [LENGTH] bytes. *)
Definition well_formed (pk : PublicKey) : Prop := length (_key pk) = LENGTH.

#[global] Instance well_formed_dec pk : Decision (well_formed pk).
Proof. unfold well_formed. apply _. Defined.

End PublicKeyOps.

(** ** Python dictionaries keyed by strings *)

(** [d[key]] *)
Definition getitem {V} (d : gmap string V) (key : string) : result V :=
  match d !! key with
  | Some v => Ok v
  | None => Raise (KeyError key)
  end.

(** ** [construct] / [borsh_construct] fields *)

Module construct.

(** [stream_read(stream, length)]: the bytes read and the rest of the stream. *)
Definition stream_read (length : nat) (stream : bytes) : result (bytes * bytes) :=
  if decide (length <= List.length stream)%nat
  then Ok (take length stream, drop length stream)
  else Raise StreamError.

(** [U8 = FormatField("<", "B")], parsing *)
Definition U8_parse (stream : bytes) : result (Z * bytes) :=
  '(data, stream) ← stream_read 1 stream;
  mret (int_from_bytes_little data, stream).

(** [U64 = FormatField("<", "Q")], parsing *)
Definition U64_parse (stream : bytes) : result (Z * bytes) :=
  '(data, stream) ← stream_read 8 stream;
  mret (int_from_bytes_little data, stream).

(** [I64 = FormatField("<", "q")], parsing: two's complement *)
Definition I64_parse (stream : bytes) : result (Z * bytes) :=
  '(data, stream) ← stream_read 8 stream;
  let u := int_from_bytes_little data in
  mret (if decide (u < 2 ^ 63) then u else u - 2 ^ 64, stream).

(** [Bytes(length)], parsing *)
Definition Bytes_parse (length : nat) (stream : bytes) : result (bytes * bytes) :=
  stream_read length stream.

(** [subcon[count]] ([Array(count, subcon)]), parsing *)
Fixpoint Array_parse {A} (count : nat) (subcon : bytes -> result (A * bytes))
    (stream : bytes) : result (list A * bytes) :=
  match count with
  | O => mret ([], stream)
  | S count' =>
      '(x, stream) ← subcon stream;
      '(xs, stream) ← Array_parse count' subcon stream;
      mret (x :: xs, stream)
  end.

(** [U8], building: [struct.pack("<B", obj)] *)
Definition U8_build (obj : Z) : result bytes :=
  match byte_of_Z obj with
  | Some b => Ok [b]
  | None => Raise FormatFieldError
  end.

(** [CStruct(name / subcon, ...).build(obj)] for integer fields: the fields
    are read from [obj] by name and built in declared order. *)
Fixpoint CStruct_build (subcons : list (string * (Z -> result bytes)))
    (obj : gmap string Z) : result bytes :=
  match subcons with
  | [] => mret []
  | (name, build) :: rest =>
      subobj ← getitem obj name;
      head ← build subobj;
      tail ← CStruct_build rest obj;
      mret (head ++ tail)
  end.

End construct.

(** [anchorpy.borsh_extension.BorshPubkey]: 32 raw bytes adapted by
    [PublicKey(obj)]. *)
Definition BorshPubkey_parse (stream : bytes) : result (PublicKey * bytes) :=
  '(obj, stream) ← construct.Bytes_parse 32 stream;
  pk ← PublicKeyOps.of_bytes obj;
  mret (pk, stream).

(** ** The account store behind [AsyncClient] *)

Abbreviation Commitment := string (only parsing).

(** [resp["result"]["value"]] of [conn.get_account_info]: the fields [fetch]
    reads.  ["data"] is the pair [payload, encoding]. *)
Module AccountInfoJSON.
Record t : Type := { owner : string; data : string * string }.
End AccountInfoJSON.

(** [info.account] of an item of [anchorpy.utils.rpc.get_multiple_accounts]. *)
Module AccountInfo.
Record t : Type := { owner : PublicKey; data : bytes }.
End AccountInfo.

Module MultipleAccountsItem.
Record t : Type := { pubkey : PublicKey; account : AccountInfo.t }.
End MultipleAccountsItem.

(** The connection, as the two files use it: a single-address lookup that
    answers with the JSON value, and a lookup of decoded accounts behind the
    batched helper. *)
Record AsyncClient : Type := {
  get_account_info :
    PublicKey -> option Commitment -> option AccountInfoJSON.t;
  lookup_account :
    PublicKey -> option Commitment -> option AccountInfo.t
}.

(** [anchorpy.utils.rpc.get_multiple_accounts(conn, addresses, commitment)]:
    one item (or [None]) per address, in the order of [addresses]. *)
Definition get_multiple_accounts (conn : AsyncClient)
    (addresses : list PublicKey) (commitment : option Commitment)
  : list (option MultipleAccountsItem.t) :=
  map (fun address =>
         (fun acc => {| MultipleAccountsItem.pubkey := address;
                        MultipleAccountsItem.account := acc |})
           <$> lookup_account conn address commitment)
      addresses.

(** ** [src/faction/accounts/player_faction_data.py] *)

Module PlayerFactionDataJSON.
Record t : Type := {
  owner : string;
  enlisted_at_timestamp : Z;
  faction_id : Z;
  bump : Z;
  padding : list Z
}.
End PlayerFactionDataJSON.

(** [PlayerFactionData.layout]: the [borsh.CStruct] of the class and the
    container its [parse] returns. *)
Module PlayerFactionData_layout.

Record Container : Type := {
  owner : PublicKey;
  enlisted_at_timestamp : Z;
  faction_id : Z;
  bump : Z;
  padding : list Z
}.

(** Bytes the five fields take: 32 + 8 + 1 + 1 + 5 * 8. *)
Definition sizeof : nat := 82.

(** [layout.parse(data)]: the fields in declared order, each from where the
    previous one stopped; what is left of [data] is not looked at. *)
Definition parse (data : bytes) : result Container :=
  '(owner, stream) ← BorshPubkey_parse data;
  '(enlisted_at_timestamp, stream) ← construct.I64_parse stream;
  '(faction_id, stream) ← construct.U8_parse stream;
  '(bump, stream) ← construct.U8_parse stream;
  '(padding, stream) ← construct.Array_parse 5 construct.U64_parse stream;
  mret {| owner := owner;
          enlisted_at_timestamp := enlisted_at_timestamp;
          faction_id := faction_id;
          bump := bump;
          padding := padding |}.

End PlayerFactionData_layout.

Module PlayerFactionData.

Record t : Type := {
  owner : PublicKey;
  enlisted_at_timestamp : Z;
  faction_id : Z;
  bump : Z;
  padding : list Z
}.

(** [b"/,\xff\x0fgM\x8b\xf7"] *)
Definition discriminator : bytes := [x2f; x2c; xff; x0f; x67; x4d; x8b; xf7].

(** [anchorpy.coder.accounts.ACCOUNT_DISCRIMINATOR_SIZE] *)
Definition ACCOUNT_DISCRIMINATOR_SIZE : nat := 8.

Definition invalid_discriminator : exception :=
  AccountInvalidDiscriminator "The discriminator for this account is invalid".

Definition decode (data : bytes) : result t :=
  if decide (take ACCOUNT_DISCRIMINATOR_SIZE data <> discriminator)
  then Raise invalid_discriminator
  else
    dec ← PlayerFactionData_layout.parse (drop ACCOUNT_DISCRIMINATOR_SIZE data);
    mret {| owner := PlayerFactionData_layout.owner dec;
            enlisted_at_timestamp :=
              PlayerFactionData_layout.enlisted_at_timestamp dec;
            faction_id := PlayerFactionData_layout.faction_id dec;
            bump := PlayerFactionData_layout.bump dec;
            padding := PlayerFactionData_layout.padding dec |}.

Definition to_json (self : t) : PlayerFactionDataJSON.t :=
  {| PlayerFactionDataJSON.owner := PublicKeyOps.str (owner self);
     PlayerFactionDataJSON.enlisted_at_timestamp := enlisted_at_timestamp self;
     PlayerFactionDataJSON.faction_id := faction_id self;
     PlayerFactionDataJSON.bump := bump self;
     PlayerFactionDataJSON.padding := padding self |}.

Definition from_json (obj : PlayerFactionDataJSON.t) : result t :=
  owner ← PublicKeyOps.of_str (PlayerFactionDataJSON.owner obj);
  mret {| owner := owner;
          enlisted_at_timestamp := PlayerFactionDataJSON.enlisted_at_timestamp obj;
          faction_id := PlayerFactionDataJSON.faction_id obj;
          bump := PlayerFactionDataJSON.bump obj;
          padding := PlayerFactionDataJSON.padding obj |}.

Definition not_owned : exception :=
  ValueError "Account does not belong to this program".

Section program.

(** [..program_id.PROGRAM_ID] and [base64.b64decode] *)
Variable PROGRAM_ID : PublicKey.
Variable b64decode : string -> result bytes.

Definition fetch (conn : AsyncClient) (address : PublicKey)
    (commitment : option Commitment) : result (option t) :=
  let info := get_account_info conn address commitment in
  match info with
  | None => mret None
  | Some info =>
      if decide (AccountInfoJSON.owner info <> PublicKeyOps.str PROGRAM_ID)
      then Raise not_owned
      else
        bytes_data ← b64decode (fst (AccountInfoJSON.data info));
        value ← decode bytes_data;
        mret (Some value)
  end.

(** The body of [for info in infos], with [res] threaded through. *)
Fixpoint fetch_multiple_loop (infos : list (option MultipleAccountsItem.t))
    (res : list (option t)) : result (list (option t)) :=
  match infos with
  | [] => mret res
  | None :: infos' => fetch_multiple_loop infos' (res ++ [None])
  | Some info :: infos' =>
      let account := MultipleAccountsItem.account info in
      if negb (PublicKeyOps.eqb (AccountInfo.owner account) PROGRAM_ID)
      then Raise not_owned
      else
        value ← decode (AccountInfo.data account);
        fetch_multiple_loop infos' (res ++ [Some value])
  end.

Definition fetch_multiple (conn : AsyncClient) (addresses : list PublicKey)
    (commitment : option Commitment) : result (list (option t)) :=
  let infos := get_multiple_accounts conn addresses commitment in
  fetch_multiple_loop infos [].

End program.

End PlayerFactionData.

(** ** [src/score/instructions/process_withdraw_fuel.py] *)

Module AccountMeta.
Record t : Type := { pubkey : PublicKey; is_signer : bool; is_writable : bool }.
End AccountMeta.

Module TransactionInstruction.
Record t : Type := {
  keys : list AccountMeta.t;
  program_id : PublicKey;
  data : bytes
}.
End TransactionInstruction.

Module ProcessWithdrawFuel.

(** [ProcessWithdrawFuelArgs] and [ProcessWithdrawFuelAccounts] are
    [TypedDict]s: dictionaries at run time. *)
Abbreviation ProcessWithdrawFuelArgs := (gmap string Z).
Abbreviation ProcessWithdrawFuelAccounts := (gmap string PublicKey).

Definition layout : list (string * (Z -> result bytes)) :=
  [ ("staking_bump"%string, construct.U8_build);
    ("scorevars_bump"%string, construct.U8_build);
    ("scorevars_ship_bump"%string, construct.U8_build);
    ("escrow_auth_bump"%string, construct.U8_build);
    ("escrow_bump"%string, construct.U8_build) ].

(** [b"-\x93\x93\xa3 \xdd\xa1\xb0"] *)
Definition identifier : bytes := [x2d; x93; x93; xa3; x20; xdd; xa1; xb0].

Section program.

Variable PROGRAM_ID : PublicKey.

Definition process_withdraw_fuel (args : ProcessWithdrawFuelArgs)
    (accounts : ProcessWithdrawFuelAccounts) : result TransactionInstruction.t :=
  player_account ← getitem accounts "player_account";
  ship_staking_account ← getitem accounts "ship_staking_account";
  score_vars_account ← getitem accounts "score_vars_account";
  score_vars_ship_account ← getitem accounts "score_vars_ship_account";
  fuel_token_account_escrow ← getitem accounts "fuel_token_account_escrow";
  fuel_token_account_return ← getitem accounts "fuel_token_account_return";
  fuel_mint ← getitem accounts "fuel_mint";
  escrow_authority ← getitem accounts "escrow_authority";
  token_program ← getitem accounts "token_program";
  clock ← getitem accounts "clock";
  ship_mint ← getitem accounts "ship_mint";
  let keys : list AccountMeta.t :=
    [ {| AccountMeta.pubkey := player_account;
         AccountMeta.is_signer := true; AccountMeta.is_writable := false |};
      {| AccountMeta.pubkey := ship_staking_account;
         AccountMeta.is_signer := false; AccountMeta.is_writable := true |};
      {| AccountMeta.pubkey := score_vars_account;
         AccountMeta.is_signer := false; AccountMeta.is_writable := false |};
      {| AccountMeta.pubkey := score_vars_ship_account;
         AccountMeta.is_signer := false; AccountMeta.is_writable := false |};
      {| AccountMeta.pubkey := fuel_token_account_escrow;
         AccountMeta.is_signer := false; AccountMeta.is_writable := true |};
      {| AccountMeta.pubkey := fuel_token_account_return;
         AccountMeta.is_signer := false; AccountMeta.is_writable := true |};
      {| AccountMeta.pubkey := fuel_mint;
         AccountMeta.is_signer := false; AccountMeta.is_writable := true |};
      {| AccountMeta.pubkey := escrow_authority;
         AccountMeta.is_signer := false; AccountMeta.is_writable := false |};
      {| AccountMeta.pubkey := token_program;
         AccountMeta.is_signer := false; AccountMeta.is_writable := false |};
      {| AccountMeta.pubkey := clock;
         AccountMeta.is_signer := false; AccountMeta.is_writable := false |};
      {| AccountMeta.pubkey := ship_mint;
         AccountMeta.is_signer := false; AccountMeta.is_writable := false |} ] in
  staking_bump ← getitem args "staking_bump";
  scorevars_bump ← getitem args "scorevars_bump";
  scorevars_ship_bump ← getitem args "scorevars_ship_bump";
  escrow_auth_bump ← getitem args "escrow_auth_bump";
  escrow_bump ← getitem args "escrow_bump";
  encoded_args ←
    construct.CStruct_build layout
      (<["staking_bump"%string := staking_bump]>
         (<["scorevars_bump"%string := scorevars_bump]>
            (<["scorevars_ship_bump"%string := scorevars_ship_bump]>
               (<["escrow_auth_bump"%string := escrow_auth_bump]>
                  (<["escrow_bump"%string := escrow_bump]> ∅)))));
  let data := identifier ++ encoded_args in
  mret {| TransactionInstruction.keys := keys;
          TransactionInstruction.program_id := PROGRAM_ID;
          TransactionInstruction.data := data |}.

End program.

End ProcessWithdrawFuel.

(** ** Vocabulary of the statements *)

(** A field that reads exactly [n] bytes: short of [n] bytes it raises
    [StreamError]; otherwise its value is [f] of the first [n] bytes and the
    stream continues after them. *)
Definition reads_exactly {A} (p : bytes -> result (A * bytes)) (n : nat)
    (f : bytes -> A) : Prop :=
  forall s, p s = if decide (n <= length s)%nat
                  then Ok (f (take n s), drop n s)
                  else Raise StreamError.

(** The same for a whole layout, whose [parse] drops the rest of the stream. *)
Definition parses_exactly {A} (p : bytes -> result A) (n : nat)
    (f : bytes -> A) : Prop :=
  forall s, p s = if decide (n <= length s)%nat
                  then Ok (f (take n s))
                  else Raise StreamError.

(** What one address contributes to the result of a batch: an empty slot
    when the store has no account there, and the decoded record when the
    account is owned by the program and its data decodes. *)
Definition slot_of (PROGRAM_ID : PublicKey) (conn : AsyncClient)
    (commitment : option Commitment) (address : PublicKey)
    (slot : option PlayerFactionData.t) : Prop :=
  match lookup_account conn address commitment with
  | None => slot = None
  | Some acc =>
      exists value,
        slot = Some value
        /\ PublicKeyOps.eqb (AccountInfo.owner acc) PROGRAM_ID = true
        /\ PlayerFactionData.decode (AccountInfo.data acc) = Ok value
  end.

(** The roles of [ProcessWithdrawFuelAccounts], in declared order, each
    with its schema pair (is-signer, is-writable). *)
Definition account_schema : list (string * (bool * bool)) :=
  [ ("player_account"%string, (true, false));
    ("ship_staking_account"%string, (false, true));
    ("score_vars_account"%string, (false, false));
    ("score_vars_ship_account"%string, (false, false));
    ("fuel_token_account_escrow"%string, (false, true));
    ("fuel_token_account_return"%string, (false, true));
    ("fuel_mint"%string, (false, true));
    ("escrow_authority"%string, (false, false));
    ("token_program"%string, (false, false));
    ("clock"%string, (false, false));
    ("ship_mint"%string, (false, false)) ].

Definition account_roles : list string := fst <$> account_schema.

(** The account reference of a schema entry, when [accounts] has the role. *)
Definition account_ref (accounts : gmap string PublicKey)
    (entry : string * (bool * bool)) : option AccountMeta.t :=
  (fun key => {| AccountMeta.pubkey := key;
                 AccountMeta.is_signer := fst (snd entry);
                 AccountMeta.is_writable := snd (snd entry) |})
    <$> accounts !! fst entry.

(** The fields of [ProcessWithdrawFuelArgs], in declared order. *)
Definition arg_names : list string :=
  [ "staking_bump"; "scorevars_bump"; "scorevars_ship_bump";
    "escrow_auth_bump"; "escrow_bump" ]%string.

(** A record as the chain stores it: a 32-byte owner key, a signed 64-bit
    timestamp, two bytes, five unsigned 64-bit padding words. *)
Definition valid_record (v : PlayerFactionData.t) : Prop :=
  PublicKeyOps.well_formed (PlayerFactionData.owner v)
  /\ - 2 ^ 63 <= PlayerFactionData.enlisted_at_timestamp v < 2 ^ 63
  /\ 0 <= PlayerFactionData.faction_id v <= 255
  /\ 0 <= PlayerFactionData.bump v <= 255
  /\ length (PlayerFactionData.padding v) = 5%nat
  /\ Forall (fun w => 0 <= w < 2 ^ 64) (PlayerFactionData.padding v).

(** [v == w] for two records: field by field, keys by [PublicKey.__eq__]. *)
Definition record_eqb (v w : PlayerFactionData.t) : bool :=
  PublicKeyOps.eqb (PlayerFactionData.owner v) (PlayerFactionData.owner w)
  && bool_decide (PlayerFactionData.enlisted_at_timestamp v
                  = PlayerFactionData.enlisted_at_timestamp w)
  && bool_decide (PlayerFactionData.faction_id v = PlayerFactionData.faction_id w)
  && bool_decide (PlayerFactionData.bump v = PlayerFactionData.bump w)
  && bool_decide (PlayerFactionData.padding v = PlayerFactionData.padding w).

(** ** Sample values *)

(** The SPL token program id, [TokenkegQfeZyiNwAJbNbGKPFXCWuBvf9Ss623VQ5DA]. *)
Definition token_program_id : PublicKey :=
  {| _key := [x06; xdd; xf6; xe1; xd7; x65; xa1; x93; xd9; xcb; xe1; x46;
              xce; xeb; x79; xac; x1c; xb4; x85; xed; x5f; x5b; x37; x91;
              x3a; x8c; xf5; x85; x7e; xff; x00; xa9] |}.

(** The system program id, [11111111111111111111111111111111]. *)
Definition system_program_id : PublicKey := {| _key := replicate 32 x00 |}.

(** A player-faction record: faction 3, bump 7, enlisted at 1000, five zero
    padding words. *)
Definition sample_record : PlayerFactionData.t :=
  {| PlayerFactionData.owner := token_program_id;
     PlayerFactionData.enlisted_at_timestamp := 1000;
     PlayerFactionData.faction_id := 3;
     PlayerFactionData.bump := 7;
     PlayerFactionData.padding := [0; 0; 0; 0; 0] |}.

(** Its account blob: discriminator, then the 82 bytes of the fields. *)
Definition sample_blob : bytes :=
  PlayerFactionData.discriminator ++ _key token_program_id
    ++ [xe8; x03; x00; x00; x00; x00; x00; x00] ++ [x03; x07]
    ++ replicate 40 x00.

(** A program identity and four addresses. *)
Definition sample_program : PublicKey := {| _key := replicate 31 x00 ++ [x07] |}.
Definition address_1 : PublicKey := {| _key := replicate 31 x01 ++ [x01] |}.
Definition address_2 : PublicKey := {| _key := replicate 31 x01 ++ [x02] |}.
Definition address_3 : PublicKey := {| _key := replicate 31 x01 ++ [x03] |}.
Definition address_4 : PublicKey := {| _key := replicate 31 x01 ++ [x04] |}.

(** A store with the sample record at [address_1] and [address_3], owned by
    [sample_program]; the same blob at [address_4] under the system
    program; nothing at [address_2].  Asked for one address, it knows
    [address_4] only. *)
Definition sample_store : AsyncClient :=
  {| get_account_info := fun address _ =>
       if decide (address = address_4)
       then Some {| AccountInfoJSON.owner := PublicKeyOps.str system_program_id;
                    AccountInfoJSON.data := (EmptyString, "base64"%string) |}
       else None;
     lookup_account := fun address _ =>
       if decide (address = address_1 \/ address = address_3)
       then Some {| AccountInfo.owner := sample_program;
                    AccountInfo.data := sample_blob |}
       else if decide (address = address_4)
       then Some {| AccountInfo.owner := system_program_id;
                    AccountInfo.data := sample_blob |}
       else None |}.

(** A text decoder that accepts the empty text only. *)
Definition empty_b64decode (text : string) : result bytes :=
  if decide (text = EmptyString) then Ok [] else Raise binascii_Error.

(** Arguments and accounts for [process_withdraw_fuel]. *)
Definition sample_args : gmap string Z :=
  list_to_map
    [ ("staking_bump"%string, 254); ("scorevars_bump"%string, 255);
      ("scorevars_ship_bump"%string, 0); ("escrow_auth_bump"%string, 253);
      ("escrow_bump"%string, 1) ].

Definition sample_accounts : gmap string PublicKey :=
  list_to_map
    [ ("player_account"%string, address_1);
      ("ship_staking_account"%string, address_2);
      ("score_vars_account"%string, address_3);
      ("score_vars_ship_account"%string, address_4);
      ("fuel_token_account_escrow"%string, address_1);
      ("fuel_token_account_return"%string, address_2);
      ("fuel_mint"%string, address_3);
      ("escrow_authority"%string, address_4);
      ("token_program"%string, token_program_id);
      ("clock"%string, system_program_id);
      ("ship_mint"%string, address_4) ].

(** ** Vocabulary of the further statements *)

(** An unsigned 64-bit value read as two's complement, as [I64] reads it. *)
Definition as_signed64 (u : Z) : Z :=
  if decide (u < 2 ^ 63) then u else u - 2 ^ 64.

(** The record at the fixed offsets of an account blob: the owner key in
    bytes 8..39, the timestamp in 40..47, the faction in 48, the bump in 49,
    the five padding words from 50 on, integers little-endian. *)
Definition record_at (data : bytes) : PlayerFactionData.t :=
  {| PlayerFactionData.owner := {| _key := take 32 (drop 8 data) |};
     PlayerFactionData.enlisted_at_timestamp :=
       as_signed64 (int_from_bytes_little (take 8 (drop 40 data)));
     PlayerFactionData.faction_id :=
       int_from_bytes_little (take 1 (drop 48 data));
     PlayerFactionData.bump := int_from_bytes_little (take 1 (drop 49 data));
     PlayerFactionData.padding :=
       [ int_from_bytes_little (take 8 (drop 50 data));
         int_from_bytes_little (take 8 (drop 58 data));
         int_from_bytes_little (take 8 (drop 66 data));
         int_from_bytes_little (take 8 (drop 74 data));
         int_from_bytes_little (take 8 (drop 82 data)) ] |}.

(** [z.to_bytes(length, "little")], for [0 <= z < 256 ^ length]. *)
Fixpoint int_to_bytes_little (length : nat) (z : Z) : bytes :=
  match length with
  | O => []
  | S n => byte_of_residue z :: int_to_bytes_little n (z / 256)
  end.

(** The 90 bytes that hold a record.  The class only parses; these bytes
    serve the proofs that [decode] is one-to-one and onto. *)
Definition blob_of (v : PlayerFactionData.t) : bytes :=
  PlayerFactionData.discriminator
    ++ _key (PlayerFactionData.owner v)
    ++ int_to_bytes_little 8
         (PlayerFactionData.enlisted_at_timestamp v mod 2 ^ 64)
    ++ int_to_bytes_little 1 (PlayerFactionData.faction_id v)
    ++ int_to_bytes_little 1 (PlayerFactionData.bump v)
    ++ concat (int_to_bytes_little 8 <$> PlayerFactionData.padding v).

(** The two views the connection gives of an address tell the same: both
    have no account there, or the JSON value holds the text of the owner
    key and a payload that [b64decode] turns into the account data. *)
Definition views_agree (b64decode : string -> result bytes)
    (conn : AsyncClient) (commitment : option Commitment)
    (address : PublicKey) : Prop :=
  match get_account_info conn address commitment,
        lookup_account conn address commitment with
  | None, None => True
  | Some info, Some acc =>
      AccountInfoJSON.owner info = PublicKeyOps.str (AccountInfo.owner acc)
      /\ b64decode (fst (AccountInfoJSON.data info)) = Ok (AccountInfo.data acc)
  | _, _ => False
  end.


(** A store with the sample record at [address_1], an account of the
    program that holds no data at [address_2], and nothing elsewhere; the
    JSON view of [address_1] carries the payload text [blob]. *)
Definition second_store : AsyncClient :=
  {| get_account_info := fun address _ =>
       if decide (address = address_1)
       then Some {| AccountInfoJSON.owner := PublicKeyOps.str sample_program;
                    AccountInfoJSON.data := ("blob"%string, "base64"%string) |}
       else None;
     lookup_account := fun address _ =>
       if decide (address = address_1)
       then Some {| AccountInfo.owner := sample_program;
                    AccountInfo.data := sample_blob |}
       else if decide (address = address_2)
       then Some {| AccountInfo.owner := sample_program;
                    AccountInfo.data := [] |}
       else None |}.

(** A text decoder that knows the payload text [blob] only. *)
Definition blob_b64decode (text : string) : result bytes :=
  if decide (text = "blob"%string) then Ok sample_blob
  else Raise binascii_Error.

(** A record whose owner key has one byte, as [PublicKey(1)] makes it. *)
Definition short_owner_record : PlayerFactionData.t :=
  {| PlayerFactionData.owner := {| _key := [x01] |};
     PlayerFactionData.enlisted_at_timestamp := -5;
     PlayerFactionData.faction_id := 2;
     PlayerFactionData.bump := 254;
     PlayerFactionData.padding := [0; 0; 0; 0; 0] |}.

(** * Properties *)

(** ** The result monad *)

Lemma bind_Ok {A B} (f : A -> result B) (a : A) : (Ok a ≫= f) = f a.
Proof. reflexivity. Qed.

Lemma bind_Raise {A B} (f : A -> result B) (e : exception) :
  (Raise e ≫= f) = Raise e.
Proof. reflexivity. Qed.

Lemma bind_is_Ok {A B} (f : A -> result B) (m : result A) (b : B) :
  (m ≫= f) = Ok b -> exists a, m = Ok a /\ f a = Ok b.
Proof. destruct m as [a|e]; [eauto | discriminate]. Qed.

(** ** Fixed-size fields *)

Lemma stream_read_exactly (n : nat) : reads_exactly (construct.stream_read n) n id.
Proof. intros s. reflexivity. Qed.

Lemma reads_exactly_map {A B} (p : bytes -> result (A * bytes)) n
    (f : bytes -> A) (h : A -> B) :
  reads_exactly p n f ->
  reads_exactly (fun s => '(a, stream) ← p s; mret (h a, stream)) n
    (fun b => h (f b)).
Proof.
  intros Hp s. rewrite (Hp s). case_decide; reflexivity.
Qed.

Lemma reads_exactly_bind {A B} (p : bytes -> result (A * bytes))
    (k : A -> bytes -> result (B * bytes)) n m f g :
  reads_exactly p n f ->
  (forall a, reads_exactly (k a) m (g a)) ->
  reads_exactly (fun s => '(a, stream) ← p s; k a stream) (n + m)
    (fun b => g (f (take n b)) (drop n b)).
Proof.
  intros Hp Hk s. rewrite (Hp s).
  destruct (decide (n <= length s)%nat) as [Hn|Hn].
  - rewrite bind_Ok, (Hk _ (drop n s)), length_drop.
    destruct (decide (m <= length s - n)%nat) as [Hm|Hm].
    + rewrite decide_True by lia.
      rewrite take_take, Nat.min_l by lia.
      by rewrite take_drop_commute, drop_drop.
    + by rewrite decide_False by lia.
  - by rewrite decide_False by lia.
Qed.

Lemma parses_exactly_bind {A B} (p : bytes -> result (A * bytes))
    (k : A -> bytes -> result B) n m f g h :
  reads_exactly p n f ->
  (forall a, parses_exactly (k a) m (g a)) ->
  (forall b, h b = g (f (take n b)) (drop n b)) ->
  parses_exactly (fun s => '(a, stream) ← p s; k a stream) (n + m) h.
Proof.
  intros Hp Hk Hh s. rewrite (Hp s).
  destruct (decide (n <= length s)%nat) as [Hn|Hn].
  - rewrite bind_Ok, (Hk _ (drop n s)), length_drop.
    destruct (decide (m <= length s - n)%nat) as [Hm|Hm].
    + rewrite decide_True by lia.
      rewrite Hh, take_take, Nat.min_l by lia.
      by rewrite take_drop_commute.
    + by rewrite decide_False by lia.
  - by rewrite decide_False by lia.
Qed.

Lemma parses_exactly_ret {A B} (p : bytes -> result (A * bytes)) n f
    (h : A -> B) h' :
  reads_exactly p n f ->
  (forall b, h' b = h (f b)) ->
  parses_exactly (fun s => '(a, stream) ← p s; mret (h a)) n h'.
Proof.
  intros Hp Hh s. rewrite (Hp s). case_decide; [|reflexivity].
  by rewrite Hh.
Qed.

Lemma U8_reads : reads_exactly construct.U8_parse 1 int_from_bytes_little.
Proof. intros s. unfold construct.U8_parse, construct.stream_read. by case_decide. Qed.

Lemma U64_reads : reads_exactly construct.U64_parse 8 int_from_bytes_little.
Proof. intros s. unfold construct.U64_parse, construct.stream_read. by case_decide. Qed.

Lemma I64_reads :
  reads_exactly construct.I64_parse 8
    (fun data => let u := int_from_bytes_little data in
                 if decide (u < 2 ^ 63) then u else u - 2 ^ 64).
Proof. intros s. unfold construct.I64_parse, construct.stream_read. by case_decide. Qed.

Lemma BorshPubkey_reads :
  reads_exactly BorshPubkey_parse 32 (fun data => {| _key := data |}).
Proof.
  intros s. unfold BorshPubkey_parse, construct.Bytes_parse, construct.stream_read.
  case_decide as Hlen; [|done].
  rewrite bind_Ok. unfold PublicKeyOps.of_bytes, PublicKeyOps.LENGTH.
  rewrite decide_False; [done|]. rewrite length_take. lia.
Qed.

Lemma Array_reads {A} (count n : nat) (subcon : bytes -> result (A * bytes)) f :
  reads_exactly subcon n f ->
  exists g, reads_exactly (construct.Array_parse count subcon) (count * n) g.
Proof.
  intros Hsub. induction count as [|count [g IH]].
  - exists (fun _ => []). intros s. cbn [construct.Array_parse].
    change (0 * n)%nat with 0%nat. rewrite decide_True by lia. by rewrite drop_0.
  - eexists. cbn [construct.Array_parse].
    change (S count * n)%nat with (n + count * n)%nat.
    eapply reads_exactly_bind; [exact Hsub|]. intros x.
    apply (reads_exactly_map _ _ g (fun xs => x :: xs) IH).
Qed.

(** [PlayerFactionData.layout.parse] needs 82 bytes, raises [StreamError]
    on fewer, and its value is a function of the first 82 bytes. *)
Lemma layout_parses :
  exists f, parses_exactly PlayerFactionData_layout.parse
              PlayerFactionData_layout.sizeof f.
Proof.
  destruct (Array_reads 5 8 construct.U64_parse _ U64_reads) as [g Hg].
  eexists. unfold PlayerFactionData_layout.parse.
  change PlayerFactionData_layout.sizeof with (32 + (8 + (1 + (1 + 5 * 8))))%nat.
  eapply (parses_exactly_bind BorshPubkey_parse _ 32 _ _ _ _ BorshPubkey_reads).
  - intros owner.
    eapply (parses_exactly_bind construct.I64_parse _ 8 _ _ _ _ I64_reads).
    + intros enlisted.
      eapply (parses_exactly_bind construct.U8_parse _ 1 _ _ _ _ U8_reads).
      * intros faction.
        eapply (parses_exactly_bind construct.U8_parse _ 1 _ _ _ _ U8_reads).
        -- intros bump.
           eapply (parses_exactly_ret _ _ _
                     (fun padding => PlayerFactionData_layout.Build_Container
                                       owner enlisted faction bump padding)
                     _ Hg).
           intros b. reflexivity.
        -- intros b. reflexivity.
      * intros b. reflexivity.
    + intros b. reflexivity.
  - intros b. reflexivity.
Qed.

(** ** [PlayerFactionData.decode] *)

(** What [decode] does, case by case: the tag is checked first, then the
    layout needs its 82 bytes, and the record is a function of those. *)
Lemma decode_cases :
  exists f, forall data,
    PlayerFactionData.decode data =
      if decide (take 8 data <> PlayerFactionData.discriminator)
      then Raise PlayerFactionData.invalid_discriminator
      else if decide (82 <= length (drop 8 data))%nat
           then Ok (f (take 82 (drop 8 data)))
           else Raise StreamError.
Proof.
  destruct layout_parses as [f Hf].
  exists (fun b =>
            let dec := f b in
            {| PlayerFactionData.owner := PlayerFactionData_layout.owner dec;
               PlayerFactionData.enlisted_at_timestamp :=
                 PlayerFactionData_layout.enlisted_at_timestamp dec;
               PlayerFactionData.faction_id :=
                 PlayerFactionData_layout.faction_id dec;
               PlayerFactionData.bump := PlayerFactionData_layout.bump dec;
               PlayerFactionData.padding :=
                 PlayerFactionData_layout.padding dec |}).
  intros data. unfold PlayerFactionData.decode.
  change PlayerFactionData.ACCOUNT_DISCRIMINATOR_SIZE with 8%nat.
  case_decide; [reflexivity|].
  rewrite (Hf (drop 8 data)).
  change PlayerFactionData_layout.sizeof with 82%nat.
  case_decide; reflexivity.
Qed.

Lemma take_prefix_length {A} (n : nat) (l l' : list A) :
  take n l' = take n l -> (n <= length l)%nat -> (n <= length l')%nat.
Proof.
  intros Heq Hlen. apply (f_equal length) in Heq.
  rewrite !length_take in Heq. lia.
Qed.

Lemma take_prefix_le {A} (n m : nat) (l l' : list A) :
  (n <= m)%nat -> take m l' = take m l -> take n l' = take n l.
Proof.
  intros Hnm Heq. apply (f_equal (take n)) in Heq.
  by rewrite !take_take, !Nat.min_l in Heq by lia.
Qed.

(** C2: a byte string whose first 8 bytes are not the account discriminator
    is refused with [AccountInvalidDiscriminator], whatever follows them;
    no record is returned for it. *)
Theorem decode_rejects_foreign_discriminator (data : bytes) :
  take 8 data <> PlayerFactionData.discriminator ->
  PlayerFactionData.decode data = Raise PlayerFactionData.invalid_discriminator
  /\ ~ is_Ok (PlayerFactionData.decode data).
Proof.
  intros Htag.
  assert (Hraise : PlayerFactionData.decode data
                   = Raise PlayerFactionData.invalid_discriminator).
  { unfold PlayerFactionData.decode.
    change PlayerFactionData.ACCOUNT_DISCRIMINATOR_SIZE with 8%nat.
    by rewrite decide_True. }
  split; [exact Hraise|].
  intros [v Hv]. rewrite Hraise in Hv. discriminate.
Qed.

(** C3, as the code has it: a byte string shorter than 90 bytes is always
    refused, with [StreamError] (the truncation error) when its first 8
    bytes are the discriminator and with [AccountInvalidDiscriminator]
    when they are not. *)
Theorem decode_short_input (data : bytes) :
  (length data < 90)%nat ->
  PlayerFactionData.decode data =
    if decide (take 8 data = PlayerFactionData.discriminator)
    then Raise StreamError
    else Raise PlayerFactionData.invalid_discriminator.
Proof.
  intros Hlen. destruct decode_cases as [f Hf]. rewrite Hf.
  destruct (decide (take 8 data = PlayerFactionData.discriminator)) as [Htag|Htag].
  - rewrite decide_False by (intros Hne; by apply Hne).
    rewrite decide_False; [reflexivity|]. rewrite length_drop. lia.
  - by rewrite decide_True.
Qed.

(** C10: a byte string that starts with the discriminator and has at least
    82 more bytes decodes, and to the same record as every byte string
    that agrees with it on the first 90 bytes: what follows is ignored. *)
Theorem decode_ignores_trailing_bytes (data : bytes) :
  take 8 data = PlayerFactionData.discriminator ->
  (82 <= length (drop 8 data))%nat ->
  exists v,
    PlayerFactionData.decode data = Ok v
    /\ forall data', take 90 data' = take 90 data ->
                     PlayerFactionData.decode data' = Ok v.
Proof.
  intros Htag Hlen. destruct decode_cases as [f Hf].
  rewrite length_drop in Hlen.
  assert (Hsame : forall data', take 90 data' = take 90 data ->
            PlayerFactionData.decode data' = Ok (f (take 82 (drop 8 data)))).
  { intros data' Heq. rewrite Hf.
    assert (Hlen' : (90 <= length data')%nat)
      by (apply (take_prefix_length 90 data data' Heq); lia).
    rewrite decide_False.
    2:{ intros Hne. apply Hne. rewrite <- Htag.
        apply (take_prefix_le 8 90); [lia | exact Heq]. }
    rewrite decide_True by (rewrite length_drop; lia).
    rewrite (take_drop_commute data' 82 8), (take_drop_commute data 82 8).
    change (8 + 82)%nat with 90%nat. by rewrite Heq. }
  eexists. split; [|exact Hsame]. by apply Hsame.
Qed.

Lemma decode_rejects_foreign_discriminator_witness :
  take 8 (replicate 8 x00 ++ drop 8 sample_blob)
    <> PlayerFactionData.discriminator
  /\ PlayerFactionData.decode (replicate 8 x00 ++ drop 8 sample_blob)
       = Raise PlayerFactionData.invalid_discriminator
  /\ ~ is_Ok (PlayerFactionData.decode (replicate 8 x00 ++ drop 8 sample_blob)).
Proof.
  split; [discriminate|].
  apply (decode_rejects_foreign_discriminator
           (replicate 8 x00 ++ drop 8 sample_blob)).
  discriminate.
Defined.

(** The empty byte string is shorter than 90 bytes and is refused for its
    discriminator, not for its length. *)
Lemma decode_empty_is_not_truncation :
  (length (@nil byte) < 90)%nat
  /\ PlayerFactionData.decode [] = Raise PlayerFactionData.invalid_discriminator
  /\ PlayerFactionData.decode [] <> Raise StreamError.
Proof. split; [simpl; lia|]. split; [reflexivity | discriminate]. Qed.

Lemma decode_short_input_witness :
  (length (take 50 sample_blob) < 90)%nat
  /\ PlayerFactionData.decode (take 50 sample_blob) = Raise StreamError.
Proof.
  split; [vm_compute; lia|].
  exact (decode_short_input (take 50 sample_blob) ltac:(vm_compute; lia)).
Defined.

Lemma decode_ignores_trailing_bytes_witness :
  exists v,
    PlayerFactionData.decode (sample_blob ++ [x01; x02]) = Ok v
    /\ forall data', take 90 data' = take 90 (sample_blob ++ [x01; x02]) ->
                     PlayerFactionData.decode data' = Ok v.
Proof.
  apply (decode_ignores_trailing_bytes (sample_blob ++ [x01; x02])).
  - reflexivity.
  - vm_compute. lia.
Defined.

(** The sample blob decodes to the sample record. *)
Example decode_sample : PlayerFactionData.decode sample_blob = Ok sample_record.
Proof. reflexivity. Qed.

(** ** [PlayerFactionData.fetch] and [PlayerFactionData.fetch_multiple] *)

Section fetch_properties.

Variable PROGRAM_ID : PublicKey.
Variable b64decode : string -> result bytes.

#[local] Abbreviation fetch := (PlayerFactionData.fetch PROGRAM_ID b64decode).
#[local] Abbreviation fetch_multiple := (PlayerFactionData.fetch_multiple PROGRAM_ID).
#[local] Abbreviation loop := (PlayerFactionData.fetch_multiple_loop PROGRAM_ID).

(** The accumulator only ever grows at its end. *)
Lemma fetch_multiple_loop_acc infos res :
  loop infos res = (r ← loop infos []; mret (res ++ r)).
Proof.
  revert res. induction infos as [|[info|] infos IH]; intros res.
  - simpl. by rewrite app_nil_r.
  - cbn [PlayerFactionData.fetch_multiple_loop].
    destruct (negb _); [reflexivity|].
    destruct (PlayerFactionData.decode _) as [value|e]; [|reflexivity].
    rewrite !bind_Ok, (IH (res ++ [Some value])), (IH ([] ++ [Some value])).
    destruct (loop infos []) as [r|e]; [|reflexivity].
    rewrite !bind_Ok. unfold mret, result_ret. by rewrite <- app_assoc.
  - cbn [PlayerFactionData.fetch_multiple_loop].
    rewrite (IH (res ++ [None])), (IH ([] ++ [None])).
    destruct (loop infos []) as [r|e]; [|reflexivity].
    rewrite !bind_Ok. unfold mret, result_ret. by rewrite <- app_assoc.
Qed.

Lemma fetch_multiple_nil conn commitment : fetch_multiple conn [] commitment = Ok [].
Proof. reflexivity. Qed.

(** One step of the batch, by what the store has at the first address. *)
Lemma fetch_multiple_cons conn commitment address addresses :
  fetch_multiple conn (address :: addresses) commitment =
    match lookup_account conn address commitment with
    | None =>
        r ← fetch_multiple conn addresses commitment; mret (None :: r)
    | Some acc =>
        if negb (PublicKeyOps.eqb (AccountInfo.owner acc) PROGRAM_ID)
        then Raise PlayerFactionData.not_owned
        else
          value ← PlayerFactionData.decode (AccountInfo.data acc);
          r ← fetch_multiple conn addresses commitment;
          mret (Some value :: r)
    end.
Proof.
  unfold PlayerFactionData.fetch_multiple, get_multiple_accounts.
  cbn [map]. destruct (lookup_account conn address commitment) as [acc|].
  - cbn [fmap option_fmap option_map PlayerFactionData.fetch_multiple_loop
         MultipleAccountsItem.account].
    destruct (negb _); [reflexivity|].
    destruct (PlayerFactionData.decode _) as [value|e]; [|reflexivity].
    rewrite !bind_Ok. by rewrite fetch_multiple_loop_acc.
  - cbn [fmap option_fmap option_map PlayerFactionData.fetch_multiple_loop].
    by rewrite fetch_multiple_loop_acc.
Qed.

(** The batch returns a list exactly when every address has a slot, and the
    list is then the list of the slots, in the order of the addresses. *)
Lemma fetch_multiple_Ok conn commitment addresses res :
  fetch_multiple conn addresses commitment = Ok res <->
  Forall2 (slot_of PROGRAM_ID conn commitment) addresses res.
Proof.
  revert res. induction addresses as [|address addresses IH]; intros res.
  - rewrite fetch_multiple_nil. split.
    + intros [= <-]. constructor.
    + intros Hall. by inversion Hall.
  - rewrite fetch_multiple_cons.
    split.
    + intros Hres.
      destruct (lookup_account conn address commitment) as [acc|] eqn:Hacc.
      * destruct (PublicKeyOps.eqb _ _) eqn:Hown; [|discriminate].
        cbn [negb] in Hres.
        apply bind_is_Ok in Hres as (value & Hdec & Hres).
        apply bind_is_Ok in Hres as (r & Hr & [= <-]).
        constructor; [|by apply IH].
        unfold slot_of. rewrite Hacc. eauto.
      * apply bind_is_Ok in Hres as (r & Hr & [= <-]).
        constructor; [unfold slot_of; by rewrite Hacc | by apply IH].
    + intros Hall. inversion Hall as [|? slot ? r Hslot Hrest]; subst.
      apply IH in Hrest. unfold slot_of in Hslot.
      destruct (lookup_account conn address commitment) as [acc|].
      * destruct Hslot as (value & -> & Hown & Hdec).
        by rewrite Hown, Hdec, Hrest.
      * subst slot. by rewrite Hrest.
Qed.

(** C4: when the store has an account at the address and its declared owner
    is not the program's identity, [fetch] raises the ownership error and
    returns nothing. *)
Theorem fetch_rejects_foreign_owner conn address commitment info :
  get_account_info conn address commitment = Some info ->
  AccountInfoJSON.owner info <> PublicKeyOps.str PROGRAM_ID ->
  fetch conn address commitment = Raise PlayerFactionData.not_owned
  /\ ~ is_Ok (fetch conn address commitment).
Proof.
  intros Hinfo Howner.
  assert (Hraise : fetch conn address commitment
                   = Raise PlayerFactionData.not_owned).
  { unfold PlayerFactionData.fetch. rewrite Hinfo. by rewrite decide_True. }
  split; [exact Hraise|]. intros [v Hv]. rewrite Hraise in Hv. discriminate.
Qed.

(** C5: [fetch] returns [None] for an address the store does not have.
    [fetch_multiple], when it returns, returns one slot per address, in the
    order of the addresses, each the slot of its own address (empty for a
    missing account); it returns whenever every address has a slot, so a
    missing account does not abort the batch; and for [a1; a2; a3] with
    [a2] missing and [a1], [a3] valid the result is
    [Some v1; None; Some v3]. *)
Theorem fetch_absent_and_batch_slots conn commitment :
  (forall address,
      get_account_info conn address commitment = None ->
      fetch conn address commitment = Ok None)
  /\ (forall addresses res,
         fetch_multiple conn addresses commitment = Ok res ->
         length res = length addresses
         /\ forall (i : nat) address,
              addresses !! i = Some address ->
              exists slot, res !! i = Some slot
                           /\ slot_of PROGRAM_ID conn commitment address slot)
  /\ (forall addresses,
         (forall address, address ∈ addresses ->
            exists slot, slot_of PROGRAM_ID conn commitment address slot) ->
         is_Ok (fetch_multiple conn addresses commitment))
  /\ (forall a1 a2 a3 v1 v3,
         slot_of PROGRAM_ID conn commitment a1 (Some v1) ->
         lookup_account conn a2 commitment = None ->
         slot_of PROGRAM_ID conn commitment a3 (Some v3) ->
         fetch_multiple conn [a1; a2; a3] commitment
           = Ok [Some v1; None; Some v3]).
Proof.
  split; [|split; [|split]].
  - intros address Hnone. unfold PlayerFactionData.fetch. by rewrite Hnone.
  - intros addresses res Hres. apply fetch_multiple_Ok in Hres. split.
    + symmetry. by eapply Forall2_length.
    + intros i address Hi.
      destruct (Forall2_lookup_l _ _ _ _ _ Hres Hi) as (slot & Hslot & Hof).
      eauto.
  - intros addresses Hall.
    induction addresses as [|address addresses IH].
    + exists []. apply fetch_multiple_nil.
    + destruct IH as [r Hr].
      { intros a Ha. apply Hall. by right. }
      destruct (Hall address) as [slot Hslot]; [by left|].
      exists (slot :: r). apply fetch_multiple_Ok.
      constructor; [exact Hslot | by apply fetch_multiple_Ok].
  - intros a1 a2 a3 v1 v3 H1 H2 H3. apply fetch_multiple_Ok.
    repeat constructor; [exact H1 | | exact H3].
    unfold slot_of. by rewrite H2.
Qed.

(** The batch stops with the ownership error at the first account of
    another owner, when every address before it has a slot. *)
Lemma fetch_multiple_first_foreign conn commitment addresses i address acc :
  addresses !! i = Some address ->
  lookup_account conn address commitment = Some acc ->
  PublicKeyOps.eqb (AccountInfo.owner acc) PROGRAM_ID = false ->
  (forall (j : nat) a, (j < i)%nat -> addresses !! j = Some a ->
     exists slot, slot_of PROGRAM_ID conn commitment a slot) ->
  fetch_multiple conn addresses commitment = Raise PlayerFactionData.not_owned.
Proof.
  revert addresses.
  induction i as [|i IH]; intros [|a0 addresses] Hi Hacc Hown Hbefore;
    try discriminate; rewrite fetch_multiple_cons.
  - injection Hi as ->. by rewrite Hacc, Hown.
  - cbn in Hi.
    rewrite (IH addresses Hi Hacc Hown).
    2:{ intros j a Hj Ha. apply (Hbefore (S j) a); [lia | exact Ha]. }
    destruct (Hbefore 0%nat a0) as [slot Hslot]; [lia | reflexivity |].
    unfold slot_of in Hslot.
    destruct (lookup_account conn a0 commitment) as [acc0|]; [|reflexivity].
    destruct Hslot as (value & _ & Hown0 & Hdec0).
    by rewrite Hown0, Hdec0.
Qed.

(** C9: in [fetch_multiple], one account of another owner anywhere among
    the addresses makes the whole call raise: no list is returned, so what
    was decoded for earlier addresses is not delivered.  The error is the
    ownership error when every address before it has a slot. *)
Theorem fetch_multiple_foreign_owner_aborts
    conn commitment addresses (i : nat) address acc :
  addresses !! i = Some address ->
  lookup_account conn address commitment = Some acc ->
  PublicKeyOps.eqb (AccountInfo.owner acc) PROGRAM_ID = false ->
  (exists e, fetch_multiple conn addresses commitment = Raise e)
  /\ ~ is_Ok (fetch_multiple conn addresses commitment)
  /\ ((forall (j : nat) a, (j < i)%nat -> addresses !! j = Some a ->
         exists slot, slot_of PROGRAM_ID conn commitment a slot) ->
      fetch_multiple conn addresses commitment
        = Raise PlayerFactionData.not_owned).
Proof.
  intros Hi Hacc Hown.
  assert (Hnot : ~ is_Ok (fetch_multiple conn addresses commitment)).
  { intros [res Hres]. apply fetch_multiple_Ok in Hres.
    destruct (Forall2_lookup_l _ _ _ _ _ Hres Hi) as (slot & _ & Hslot).
    unfold slot_of in Hslot. rewrite Hacc in Hslot.
    destruct Hslot as (value & _ & Hown' & _). congruence. }
  split; [|split; [exact Hnot|]].
  - destruct (fetch_multiple conn addresses commitment) as [res|e] eqn:Hres.
    + exfalso. apply Hnot. by exists res.
    + by exists e.
  - by apply (fetch_multiple_first_foreign conn commitment addresses i address acc).
Qed.

End fetch_properties.

Lemma fetch_rejects_foreign_owner_witness :
  PlayerFactionData.fetch sample_program empty_b64decode sample_store
      address_4 None
    = Raise PlayerFactionData.not_owned
  /\ ~ is_Ok (PlayerFactionData.fetch sample_program empty_b64decode
                sample_store address_4 None).
Proof.
  apply (fetch_rejects_foreign_owner sample_program empty_b64decode
           sample_store address_4 None
           {| AccountInfoJSON.owner := PublicKeyOps.str system_program_id;
              AccountInfoJSON.data := (EmptyString, "base64"%string) |}).
  - reflexivity.
  - vm_compute. discriminate.
Defined.

Lemma fetch_absent_and_batch_slots_witness :
  PlayerFactionData.fetch sample_program empty_b64decode sample_store
      address_2 None = Ok None
  /\ PlayerFactionData.fetch_multiple sample_program sample_store
       [address_1; address_2; address_3] None
     = Ok [Some sample_record; None; Some sample_record].
Proof.
  destruct (fetch_absent_and_batch_slots sample_program empty_b64decode
              sample_store None) as (Hone & _ & _ & Hbatch).
  split.
  - apply Hone. reflexivity.
  - apply Hbatch.
    + exists sample_record. repeat split; reflexivity.
    + reflexivity.
    + exists sample_record. repeat split; reflexivity.
Defined.

Lemma fetch_multiple_foreign_owner_aborts_witness :
  (exists e, PlayerFactionData.fetch_multiple sample_program sample_store
               [address_1; address_4; address_3] None = Raise e)
  /\ ~ is_Ok (PlayerFactionData.fetch_multiple sample_program sample_store
                [address_1; address_4; address_3] None)
  /\ PlayerFactionData.fetch_multiple sample_program sample_store
       [address_1; address_4; address_3] None
     = Raise PlayerFactionData.not_owned.
Proof.
  destruct (fetch_multiple_foreign_owner_aborts sample_program sample_store
              None [address_1; address_4; address_3] 1 address_4
              {| AccountInfo.owner := system_program_id;
                 AccountInfo.data := sample_blob |})
    as (Hraise & Hnot & Hfirst); [reflexivity | reflexivity | reflexivity |].
  split; [exact Hraise|]. split; [exact Hnot|].
  apply Hfirst. intros [|j] a Hj Ha; [|lia].
  injection Ha as <-. exists (Some sample_record).
  exists sample_record. repeat split; reflexivity.
Defined.

(** ** [process_withdraw_fuel] *)

Lemma byte_of_Z_range (z : Z) :
  0 <= z <= 255 -> exists c, byte_of_Z z = Some c /\ byte_to_Z c = z.
Proof.
  intros Hz. unfold byte_of_Z. rewrite decide_True by lia.
  destruct (Byte.of_N (Z.to_N z)) as [c|] eqn:Hc.
  - exists c. split; [reflexivity|]. unfold byte_to_Z.
    rewrite (Byte.to_of_N _ Hc). lia.
  - apply Byte.of_N_None_iff in Hc. lia.
Qed.

Lemma getitem_Some {V} (d : gmap string V) key v :
  d !! key = Some v -> getitem d key = Ok v.
Proof. intros H. unfold getitem. by rewrite H. Qed.

Lemma getitem_None {V} (d : gmap string V) key :
  d !! key = None -> getitem d key = Raise (KeyError key).
Proof. intros H. unfold getitem. by rewrite H. Qed.

(** The five-field layout builds the five bytes, in declared order. *)
Lemma layout_build_args (b1 b2 b3 b4 b5 : Z) (c1 c2 c3 c4 c5 : byte) :
  byte_of_Z b1 = Some c1 -> byte_of_Z b2 = Some c2 ->
  byte_of_Z b3 = Some c3 -> byte_of_Z b4 = Some c4 ->
  byte_of_Z b5 = Some c5 ->
  construct.CStruct_build ProcessWithdrawFuel.layout
    (<["staking_bump"%string := b1]>
       (<["scorevars_bump"%string := b2]>
          (<["scorevars_ship_bump"%string := b3]>
             (<["escrow_auth_bump"%string := b4]>
                (<["escrow_bump"%string := b5]> ∅)))))
  = Ok [c1; c2; c3; c4; c5].
Proof.
  intros H1 H2 H3 H4 H5.
  unfold ProcessWithdrawFuel.layout. cbn [construct.CStruct_build].
  unfold getitem, construct.U8_build.
  repeat (rewrite lookup_insert_eq || rewrite lookup_insert_ne by done).
  rewrite !bind_Ok, H1, H2, H3, H4, H5. reflexivity.
Qed.

Section build_properties.

Variable PROGRAM_ID : PublicKey.

#[local] Abbreviation process_withdraw_fuel :=
  (ProcessWithdrawFuel.process_withdraw_fuel PROGRAM_ID).

(** Naming the value of every role, one hypothesis per role. *)
Ltac name_roles H :=
  apply Forall_forall in H;
  unfold account_roles, account_schema, arg_names in H;
  cbn [fmap list_fmap fst] in H;
  repeat (apply Forall_cons in H as [? H]).

(** [process_withdraw_fuel], once every role and every argument is named. *)
Lemma process_withdraw_fuel_named args accounts
    k1 k2 k3 k4 k5 k6 k7 k8 k9 k10 k11 b1 b2 b3 b4 b5 :
  accounts !! "player_account"%string = Some k1 ->
  accounts !! "ship_staking_account"%string = Some k2 ->
  accounts !! "score_vars_account"%string = Some k3 ->
  accounts !! "score_vars_ship_account"%string = Some k4 ->
  accounts !! "fuel_token_account_escrow"%string = Some k5 ->
  accounts !! "fuel_token_account_return"%string = Some k6 ->
  accounts !! "fuel_mint"%string = Some k7 ->
  accounts !! "escrow_authority"%string = Some k8 ->
  accounts !! "token_program"%string = Some k9 ->
  accounts !! "clock"%string = Some k10 ->
  accounts !! "ship_mint"%string = Some k11 ->
  args !! "staking_bump"%string = Some b1 ->
  args !! "scorevars_bump"%string = Some b2 ->
  args !! "scorevars_ship_bump"%string = Some b3 ->
  args !! "escrow_auth_bump"%string = Some b4 ->
  args !! "escrow_bump"%string = Some b5 ->
  process_withdraw_fuel args accounts =
    (encoded_args ←
       construct.CStruct_build ProcessWithdrawFuel.layout
         (<["staking_bump"%string := b1]>
            (<["scorevars_bump"%string := b2]>
               (<["scorevars_ship_bump"%string := b3]>
                  (<["escrow_auth_bump"%string := b4]>
                     (<["escrow_bump"%string := b5]> ∅)))));
     mret {| TransactionInstruction.keys :=
               [ AccountMeta.Build_t k1 true false;
                 AccountMeta.Build_t k2 false true;
                 AccountMeta.Build_t k3 false false;
                 AccountMeta.Build_t k4 false false;
                 AccountMeta.Build_t k5 false true;
                 AccountMeta.Build_t k6 false true;
                 AccountMeta.Build_t k7 false true;
                 AccountMeta.Build_t k8 false false;
                 AccountMeta.Build_t k9 false false;
                 AccountMeta.Build_t k10 false false;
                 AccountMeta.Build_t k11 false false ];
             TransactionInstruction.program_id := PROGRAM_ID;
             TransactionInstruction.data :=
               ProcessWithdrawFuel.identifier ++ encoded_args |}).
Proof.
  intros Hk1 Hk2 Hk3 Hk4 Hk5 Hk6 Hk7 Hk8 Hk9 Hk10 Hk11 Hb1 Hb2 Hb3 Hb4 Hb5.
  unfold ProcessWithdrawFuel.process_withdraw_fuel.
  rewrite (getitem_Some _ _ _ Hk1), (getitem_Some _ _ _ Hk2),
    (getitem_Some _ _ _ Hk3), (getitem_Some _ _ _ Hk4),
    (getitem_Some _ _ _ Hk5), (getitem_Some _ _ _ Hk6),
    (getitem_Some _ _ _ Hk7), (getitem_Some _ _ _ Hk8),
    (getitem_Some _ _ _ Hk9), (getitem_Some _ _ _ Hk10),
    (getitem_Some _ _ _ Hk11), (getitem_Some _ _ _ Hb1),
    (getitem_Some _ _ _ Hb2), (getitem_Some _ _ _ Hb3),
    (getitem_Some _ _ _ Hb4), (getitem_Some _ _ _ Hb5).
  reflexivity.
Qed.

(** C1: with five arguments in 0..255 and every role present, the call
    returns a payload whose data is the 8-byte identifier followed by the
    five arguments, one byte each, in declared order, and whose 11 account
    references follow the schema: its order, its keys from [accounts], its
    (is-signer, is-writable) pairs, none of which depends on [args]. *)
Theorem process_withdraw_fuel_payload args accounts :
  (forall name, name ∈ arg_names ->
     exists b, args !! name = Some b /\ 0 <= b <= 255) ->
  (forall role, role ∈ account_roles -> is_Some (accounts !! role)) ->
  exists ix,
    process_withdraw_fuel args accounts = Ok ix
    /\ take 8 (TransactionInstruction.data ix) = ProcessWithdrawFuel.identifier
    /\ Some <$> (byte_to_Z <$> drop 8 (TransactionInstruction.data ix))
       = (fun name => args !! name) <$> arg_names
    /\ length (TransactionInstruction.keys ix) = 11%nat
    /\ Some <$> TransactionInstruction.keys ix
       = account_ref accounts <$> account_schema
    /\ TransactionInstruction.program_id ix = PROGRAM_ID.
Proof.
  intros Hargs Haccounts.
  name_roles Haccounts. name_roles Hargs.
  repeat match goal with
         | H : is_Some (_ !! _) |- _ => destruct H as [? H]
         | H : exists b, _ /\ _ |- _ => destruct H as (? & H & ?)
         end.
  repeat match goal with
         | H : 0 <= ?b <= 255 |- _ =>
             apply byte_of_Z_range in H as (? & ? & ?)
         end.
  eexists. split.
  - erewrite process_withdraw_fuel_named by eassumption.
    erewrite layout_build_args by eassumption. reflexivity.
  - cbn [TransactionInstruction.data TransactionInstruction.keys
         TransactionInstruction.program_id].
    unfold arg_names, account_schema, account_ref,
      ProcessWithdrawFuel.identifier.
    cbn [fmap list_fmap fst snd app firstn skipn length].
    repeat match goal with H : _ !! _ = Some _ |- _ => rewrite H; clear H end.
    repeat match goal with H : byte_to_Z _ = _ |- _ => rewrite H; clear H end.
    repeat split; reflexivity.
Qed.

Ltac role_listed :=
  unfold account_roles, account_schema; cbn [fmap list_fmap fst];
  apply list_elem_of_In; cbn [In]; tauto.

(** Looking up the next role: either it is there and the call goes on, or
    the call stops with the [KeyError] of that role. *)
Ltac next_role accounts role :=
  let H := fresh "Hrole" in
  destruct (accounts !! role) eqn:H;
  [ rewrite (getitem_Some accounts role _ H), bind_Ok
  | exists role; split; [role_listed|]; split; [exact H|];
    by rewrite (getitem_None accounts role H) ].

(** A call with a role missing stops at the first missing role, in schema
    order, before [args] is looked at. *)
Lemma process_withdraw_fuel_KeyError args accounts role :
  role ∈ account_roles ->
  accounts !! role = None ->
  exists missing,
    missing ∈ account_roles
    /\ accounts !! missing = None
    /\ process_withdraw_fuel args accounts = Raise (KeyError missing).
Proof.
  intros Hrole Hnone.
  unfold ProcessWithdrawFuel.process_withdraw_fuel.
  next_role accounts "player_account"%string.
  next_role accounts "ship_staking_account"%string.
  next_role accounts "score_vars_account"%string.
  next_role accounts "score_vars_ship_account"%string.
  next_role accounts "fuel_token_account_escrow"%string.
  next_role accounts "fuel_token_account_return"%string.
  next_role accounts "fuel_mint"%string.
  next_role accounts "escrow_authority"%string.
  next_role accounts "token_program"%string.
  next_role accounts "clock"%string.
  next_role accounts "ship_mint"%string.
  exfalso.
  unfold account_roles, account_schema in Hrole. cbn [fmap list_fmap fst] in Hrole.
  apply list_elem_of_In in Hrole. cbn [In] in Hrole.
  repeat (destruct Hrole as [<- | Hrole]; [congruence|]).
  exact Hrole.
Qed.

(** C8: when [accounts] lacks one of the 11 roles, the call raises the
    [KeyError] of a missing role and returns no payload, whatever [args]
    holds. *)
Theorem process_withdraw_fuel_missing_role args accounts role :
  role ∈ account_roles ->
  accounts !! role = None ->
  (exists missing,
      missing ∈ account_roles
      /\ accounts !! missing = None
      /\ process_withdraw_fuel args accounts = Raise (KeyError missing))
  /\ ~ is_Ok (process_withdraw_fuel args accounts).
Proof.
  intros Hrole Hnone.
  destruct (process_withdraw_fuel_KeyError args accounts role Hrole Hnone)
    as (missing & Hin & Hmiss & Hraise).
  split; [by exists missing|].
  intros [ix Hix]. rewrite Hraise in Hix. discriminate.
Qed.

(** C7: the result is a function of the inputs, and of no more of them than
    the five named arguments and the 11 named roles: two calls whose
    inputs agree there (two calls on the same inputs, in particular) give
    the same result, the same data bytes and the same account references
    in the same order. *)
Theorem process_withdraw_fuel_deterministic args args' accounts accounts' :
  (forall name, name ∈ arg_names -> args !! name = args' !! name) ->
  (forall role, role ∈ account_roles ->
     accounts !! role = accounts' !! role) ->
  process_withdraw_fuel args accounts = process_withdraw_fuel args' accounts'.
Proof.
  intros Hargs Haccounts.
  name_roles Haccounts. name_roles Hargs.
  unfold ProcessWithdrawFuel.process_withdraw_fuel, getitem.
  repeat match goal with H : _ !! _ = _ !! _ |- _ => rewrite H; clear H end.
  reflexivity.
Qed.

End build_properties.

Ltac each_listed H :=
  apply list_elem_of_In in H;
  unfold account_roles, account_schema, arg_names in H;
  cbn [fmap list_fmap fst In] in H;
  repeat (destruct H as [<- | H]; [|]); [..|destruct H].

Lemma process_withdraw_fuel_payload_witness :
  exists ix,
    ProcessWithdrawFuel.process_withdraw_fuel sample_program
        sample_args sample_accounts = Ok ix
    /\ take 8 (TransactionInstruction.data ix) = ProcessWithdrawFuel.identifier
    /\ Some <$> (byte_to_Z <$> drop 8 (TransactionInstruction.data ix))
       = (fun name => sample_args !! name) <$> arg_names
    /\ length (TransactionInstruction.keys ix) = 11%nat
    /\ Some <$> TransactionInstruction.keys ix
       = account_ref sample_accounts <$> account_schema
    /\ TransactionInstruction.program_id ix = sample_program.
Proof.
  apply (process_withdraw_fuel_payload sample_program sample_args
           sample_accounts).
  - intros name Hin.
    each_listed Hin;
      [exists 254 | exists 255 | exists 0 | exists 253 | exists 1];
      (split; [vm_compute; reflexivity | lia]).
  - intros role Hin. each_listed Hin; eexists; reflexivity.
Defined.

(** The sample call, evaluated. *)
Example process_withdraw_fuel_sample :
  ProcessWithdrawFuel.process_withdraw_fuel sample_program
      sample_args sample_accounts
  = Ok {| TransactionInstruction.keys :=
            [ AccountMeta.Build_t address_1 true false;
              AccountMeta.Build_t address_2 false true;
              AccountMeta.Build_t address_3 false false;
              AccountMeta.Build_t address_4 false false;
              AccountMeta.Build_t address_1 false true;
              AccountMeta.Build_t address_2 false true;
              AccountMeta.Build_t address_3 false true;
              AccountMeta.Build_t address_4 false false;
              AccountMeta.Build_t token_program_id false false;
              AccountMeta.Build_t system_program_id false false;
              AccountMeta.Build_t address_4 false false ];
          TransactionInstruction.program_id := sample_program;
          TransactionInstruction.data :=
            [x2d; x93; x93; xa3; x20; xdd; xa1; xb0;
             xfe; xff; x00; xfd; x01] |}.
Proof. vm_compute. reflexivity. Qed.

(** An argument above 255 is refused by the layout. *)
Example process_withdraw_fuel_out_of_range :
  ProcessWithdrawFuel.process_withdraw_fuel sample_program
      (<["escrow_bump"%string := 256]> sample_args) sample_accounts
  = Raise FormatFieldError.
Proof. vm_compute. reflexivity. Qed.

Lemma process_withdraw_fuel_missing_role_witness :
  (exists missing,
      missing ∈ account_roles
      /\ delete "clock"%string sample_accounts !! missing = None
      /\ ProcessWithdrawFuel.process_withdraw_fuel sample_program sample_args
           (delete "clock"%string sample_accounts) = Raise (KeyError missing))
  /\ ~ is_Ok (ProcessWithdrawFuel.process_withdraw_fuel sample_program
                sample_args (delete "clock"%string sample_accounts)).
Proof.
  apply (process_withdraw_fuel_missing_role sample_program sample_args
           (delete "clock"%string sample_accounts) "clock"%string).
  - unfold account_roles, account_schema. cbn [fmap list_fmap fst].
    apply list_elem_of_In. cbn [In]. tauto.
  - reflexivity.
Defined.

Lemma process_withdraw_fuel_deterministic_witness :
  ProcessWithdrawFuel.process_withdraw_fuel sample_program
      sample_args sample_accounts
  = ProcessWithdrawFuel.process_withdraw_fuel sample_program
      (<["memo"%string := 7]> sample_args)
      (<["payer"%string := address_1]> sample_accounts).
Proof.
  apply (process_withdraw_fuel_deterministic sample_program).
  - intros name Hin. each_listed Hin; reflexivity.
  - intros role Hin. each_listed Hin; reflexivity.
Defined.

(** ** Integers and bytes *)

Lemma byte_to_Z_range (x : byte) : 0 <= byte_to_Z x <= 255.
Proof. unfold byte_to_Z. pose proof (Byte.to_N_bounded x). lia. Qed.

Lemma byte_of_Z_to_Z (x : byte) : byte_of_Z (byte_to_Z x) = Some x.
Proof.
  unfold byte_of_Z, byte_to_Z. rewrite decide_True by lia.
  rewrite N2Z.id. apply Byte.of_to_N.
Qed.

Lemma byte_to_Z_zero (x : byte) : byte_to_Z x = 0 -> x = x00.
Proof.
  intros Hx. pose proof (byte_of_Z_to_Z x) as Hof. rewrite Hx in Hof.
  by injection Hof.
Qed.

Lemma byte_of_residue_step (a : Z) (x : byte) :
  byte_of_residue (a * 256 + byte_to_Z x) = x.
Proof.
  unfold byte_of_residue. pose proof (byte_to_Z_range x).
  replace ((a * 256 + byte_to_Z x) mod 256) with (byte_to_Z x).
  - by rewrite byte_of_Z_to_Z.
  - rewrite Z.add_comm, Z.mod_add by lia. by rewrite Z.mod_small by lia.
Qed.

Lemma int_from_bytes_big_snoc (l : bytes) (x : byte) :
  int_from_bytes_big (l ++ [x]) = int_from_bytes_big l * 256 + byte_to_Z x.
Proof. unfold int_from_bytes_big. by rewrite fold_left_app. Qed.

Lemma int_from_bytes_big_bound (l : bytes) :
  0 <= int_from_bytes_big l < 256 ^ Z.of_nat (length l).
Proof.
  induction l as [|x l IH] using rev_ind; [by vm_compute|].
  rewrite int_from_bytes_big_snoc, length_app. cbn [length].
  replace (Z.of_nat (length l + 1)) with (Z.succ (Z.of_nat (length l))) by lia.
  rewrite Z.pow_succ_r by lia. pose proof (byte_to_Z_range x). lia.
Qed.

Lemma int_from_bytes_big_cons (x : byte) (l : bytes) :
  int_from_bytes_big (x :: l)
  = byte_to_Z x * 256 ^ Z.of_nat (length l) + int_from_bytes_big l.
Proof.
  induction l as [|y l IH] using rev_ind.
  - unfold int_from_bytes_big. simpl. lia.
  - rewrite app_comm_cons, !int_from_bytes_big_snoc, IH, length_app. cbn [length].
    replace (Z.of_nat (length l + 1)) with (Z.succ (Z.of_nat (length l))) by lia.
    rewrite Z.pow_succ_r by lia. lia.
Qed.

Lemma int_to_bytes_big_from (l : bytes) :
  int_to_bytes_big (length l) (int_from_bytes_big l) = l.
Proof.
  induction l as [|x l IH] using rev_ind; [reflexivity|].
  rewrite length_app, Nat.add_comm. cbn [length Nat.add int_to_bytes_big].
  rewrite int_from_bytes_big_snoc, byte_of_residue_step.
  pose proof (byte_to_Z_range x).
  replace ((int_from_bytes_big l * 256 + byte_to_Z x) / 256)
    with (int_from_bytes_big l).
  - by rewrite IH.
  - rewrite Z.add_comm, Z.div_add by lia. rewrite Z.div_small by lia. lia.
Qed.

Lemma int_to_bytes_big_zero (k : nat) : int_to_bytes_big k 0 = replicate k x00.
Proof.
  induction k as [|k IH]; [reflexivity|].
  cbn [int_to_bytes_big]. rewrite Z.div_0_l, IH by lia.
  change (byte_of_residue 0) with x00.
  by rewrite replicate_S_end.
Qed.

Lemma int_to_bytes_big_pad (k n : nat) (acc : Z) :
  0 <= acc < 256 ^ Z.of_nat n ->
  int_to_bytes_big (k + n) acc = replicate k x00 ++ int_to_bytes_big n acc.
Proof.
  revert acc. induction n as [|n IH]; intros acc Hacc.
  - assert (acc = 0) as -> by (simpl in Hacc; lia).
    rewrite Nat.add_0_r, int_to_bytes_big_zero. by rewrite app_nil_r.
  - rewrite Nat.add_succ_r. cbn [int_to_bytes_big].
    rewrite IH, app_assoc; [reflexivity|].
    rewrite Nat2Z.inj_succ, Z.pow_succ_r in Hacc by lia.
    split; [apply Z.div_pos; lia|].
    apply Z.div_lt_upper_bound; lia.
Qed.

(** The byte length Python computes from [bit_length] is the length of a
    byte string without leading zero. *)
Lemma byte_length_from (l : bytes) :
  lstrip x00 l = l ->
  Z.to_nat ((bit_length (int_from_bytes_big l) + 7) / 8) = length l.
Proof.
  intros Hstrip. destruct l as [|x l]; [reflexivity|].
  assert (Hx : x <> x00).
  { intros ->. cbn in Hstrip. rewrite decide_True in Hstrip by done.
    apply (f_equal length) in Hstrip. cbn in Hstrip.
    assert (length (lstrip x00 l) <= length l)%nat; [|lia].
    clear. induction l as [|y l IH]; [done|]. cbn. case_decide; cbn; lia. }
  pose proof (int_from_bytes_big_bound (x :: l)) as [_ Hupper].
  pose proof (int_from_bytes_big_bound l) as [Hlow _].
  pose proof (byte_to_Z_range x) as Hrange.
  assert (Hx1 : 1 <= byte_to_Z x).
  { destruct (decide (byte_to_Z x = 0)) as [H0|H0]; [|lia].
    by apply byte_to_Z_zero in H0. }
  set (n := Z.of_nat (length l)) in *.
  assert (Hlower : 256 ^ n <= int_from_bytes_big (x :: l)).
  { rewrite int_from_bytes_big_cons. fold n.
    assert (0 < 256 ^ n) by (apply Z.pow_pos_nonneg; lia). nia. }
  cbn [length] in *. rewrite Nat2Z.inj_succ in Hupper. fold n in Hupper.
  set (acc := int_from_bytes_big (x :: l)) in *.
  assert (Hn : 0 <= n) by lia.
  assert (Hpos : 0 < acc).
  { assert (0 < 256 ^ n) by (apply Z.pow_pos_nonneg; lia). lia. }
  unfold bit_length. rewrite decide_False by lia.
  change 256 with (2 ^ 8) in Hlower, Hupper.
  rewrite <- Z.pow_mul_r in Hlower, Hupper by lia.
  apply Z.log2_le_pow2 in Hlower; [|lia].
  apply Z.log2_lt_pow2 in Hupper; [|lia].
  assert ((Z.log2 acc + 1 + 7) / 8 = Z.succ n) as ->.
  { symmetry. apply (Z.div_unique _ 8 _ (Z.log2 acc + 8 - 8 * Z.succ n)); lia. }
  lia.
Qed.

(** ** [lstrip] *)

Lemma lstrip_length {A} `{EqDecision A} (c : A) (l : list A) :
  (length (lstrip c l) <= length l)%nat.
Proof. induction l as [|y l IH]; [done|]. cbn. case_decide; cbn; lia. Qed.

Lemma lstrip_replicate {A} `{EqDecision A} (c : A) (l : list A) :
  replicate (length l - length (lstrip c l)) c ++ lstrip c l = l.
Proof.
  induction l as [|x l IH]; [reflexivity|].
  cbn [lstrip]. case_decide as Hx.
  - subst x. pose proof (lstrip_length c l). cbn [length].
    replace (S (length l) - length (lstrip c l))%nat
      with (S (length l - length (lstrip c l))) by lia.
    cbn [replicate app]. by rewrite IH.
  - by rewrite Nat.sub_diag.
Qed.

Lemma lstrip_idemp {A} `{EqDecision A} (c : A) (l : list A) :
  lstrip c (lstrip c l) = lstrip c l.
Proof.
  induction l as [|x l IH]; [reflexivity|].
  cbn [lstrip]. case_decide as Hx; [exact IH|].
  cbn [lstrip]. by rewrite decide_False.
Qed.

Lemma lstrip_replicate_app {A} `{EqDecision A} (c : A) (k : nat) (l : list A) :
  lstrip c (replicate k c ++ l) = lstrip c l.
Proof.
  induction k as [|k IH]; [reflexivity|].
  cbn [replicate app lstrip]. by rewrite decide_True.
Qed.

Lemma lstrip_no_head {A} `{EqDecision A} (c : A) (l : list A) :
  (forall x r, l = x :: r -> x <> c) -> lstrip c l = l.
Proof.
  destruct l as [|x r]; [reflexivity|]. intros Hhead.
  cbn [lstrip]. rewrite decide_False; [reflexivity|]. by eapply Hhead.
Qed.

(** ** [base58] *)

(** Every digit has its character: decoding gives the digit back, the
    character is not white space, and only digit 0 is written ['1']. *)
Lemma alphabet_digit (d : Z) :
  0 <= d < 58 ->
  base58.decode_map (base58.alphabet_at d) = Some d
  /\ base58.is_space (base58.alphabet_at d) = false
  /\ (base58.alphabet_at d = "1"%char -> d = 0).
Proof.
  intros Hd.
  assert (Hnat : exists n : nat, (n < 58)%nat /\ d = Z.of_nat n)
    by (exists (Z.to_nat d); lia).
  destruct Hnat as (n & Hn & ->). clear Hd.
  do 58 (destruct n as [|n];
         [vm_compute; repeat split; (reflexivity || discriminate)|]).
  lia.
Qed.

Lemma b58decode_int_loop_app (a b : list ascii) (decimal : Z) :
  base58.b58decode_int_loop (a ++ b) decimal
  = base58.b58decode_int_loop a decimal ≫= base58.b58decode_int_loop b.
Proof.
  revert decimal. induction a as [|c a IH]; intros decimal; [reflexivity|].
  cbn [app base58.b58decode_int_loop].
  destruct (base58.decode_map c); [apply IH | reflexivity].
Qed.

(** The encoding loop writes the base-58 digits of [i] in front of what it
    was given: they decode to [i], hold no white space, and do not start
    with ['1']. *)
Lemma b58encode_int_loop_digits (fuel : nat) (i : Z) (s : list ascii) :
  0 <= i < 2 ^ Z.of_nat fuel ->
  exists digits,
    base58.b58encode_int_loop fuel i s = digits ++ s
    /\ base58.b58decode_int_loop digits 0 = Some i
    /\ Forall (fun c => base58.is_space c = false) digits
    /\ (forall c r, digits = c :: r -> c <> "1"%char).
Proof.
  revert i s. induction fuel as [|fuel IH]; intros i s Hi.
  - assert (i = 0) as -> by (cbn in Hi; lia).
    exists []. repeat split; [constructor | discriminate].
  - cbn [base58.b58encode_int_loop]. case_decide as Hzero.
    + subst i. exists []. repeat split; [constructor | discriminate].
    + rewrite Nat2Z.inj_succ, Z.pow_succ_r in Hi by lia.
      assert (Hmod : 0 <= i mod 58 < 58) by (apply Z.mod_pos_bound; lia).
      assert (Hdiv : 0 <= i / 58 < 2 ^ Z.of_nat fuel).
      { split; [apply Z.div_pos; lia|].
        apply Z.div_lt_upper_bound; lia. }
      destruct (alphabet_digit (i mod 58) Hmod) as (Hdec & Hspace & Hone).
      destruct (IH (i / 58) (base58.alphabet_at (i mod 58) :: s) Hdiv)
        as (digits & Hloop & Hval & Hclean & Hhead).
      exists (digits ++ [base58.alphabet_at (i mod 58)]).
      split; [by rewrite Hloop, <- app_assoc|].
      split; [|split].
      * rewrite b58decode_int_loop_app, Hval.
        cbn [mbind option_bind base58.b58decode_int_loop]. rewrite Hdec.
        f_equal. pose proof (Z.div_mod i 58). lia.
      * apply Forall_app. split; [exact Hclean | by repeat constructor].
      * intros c r Heq. destruct digits as [|c' digits'].
        -- injection Heq as <- _. intros Hc. apply Hone in Hc.
           cbn in Hval. injection Hval as Hq.
           pose proof (Z.div_mod i 58). lia.
        -- injection Heq as <- _. by eapply Hhead.
Qed.

Lemma bit_length_bound (i : Z) :
  0 <= i -> 0 <= i < 2 ^ Z.of_nat (Z.to_nat (bit_length i)).
Proof.
  intros Hi. unfold bit_length. case_decide as Hzero; [subst; by vm_compute|].
  pose proof (Z.log2_nonneg i). rewrite Z2Nat.id by lia.
  split; [lia|]. replace (Z.log2 i + 1) with (Z.succ (Z.log2 i)) by lia.
  apply Z.log2_spec. lia.
Qed.

Lemma rstrip_clean (s : list ascii) :
  Forall (fun c => base58.is_space c = false) s -> base58.rstrip s = s.
Proof.
  induction 1 as [|c s Hc Hs IH]; [reflexivity|].
  cbn [base58.rstrip]. rewrite IH. destruct s; [by rewrite Hc | reflexivity].
Qed.

(** [b58decode] undoes [b58encode], on every byte string. *)
Lemma b58decode_b58encode (v : bytes) :
  base58.b58decode (base58.b58encode v) = Some v.
Proof.
  unfold base58.b58encode, base58.b58decode.
  rewrite list_ascii_of_string_of_list_ascii.
  set (v' := lstrip x00 v). set (k := (length v - length v')%nat).
  pose proof (int_from_bytes_big_bound v') as Hacc.
  destruct (b58encode_int_loop_digits _ _ [] (bit_length_bound _ (proj1 Hacc)))
    as (digits & Hloop & Hval & Hclean & Hhead).
  rewrite app_nil_r in Hloop.
  unfold base58.b58encode_int. rewrite Hloop.
  assert (Hall : Forall (fun c => base58.is_space c = false)
                   (replicate k "1"%char ++ digits)).
  { apply Forall_app. split; [|exact Hclean].
    apply Forall_replicate. reflexivity. }
  rewrite (rstrip_clean _ Hall).
  rewrite lstrip_replicate_app, (lstrip_no_head _ _ Hhead).
  unfold base58.b58decode_int. rewrite (rstrip_clean _ Hclean), Hval.
  f_equal. rewrite length_app, length_replicate.
  replace (k + length digits - length digits)%nat with k by lia.
  rewrite (byte_length_from v') by apply lstrip_idemp.
  rewrite (int_to_bytes_big_pad k (length v')) by exact Hacc.
  rewrite int_to_bytes_big_from. apply lstrip_replicate.
Qed.

(** ** [PublicKey] and its text form *)

Lemma to_bytes_length (pk : PublicKey) :
  (length (_key pk) <= PublicKeyOps.LENGTH)%nat ->
  length (PublicKeyOps.to_bytes pk) = PublicKeyOps.LENGTH.
Proof.
  intros Hlen. unfold PublicKeyOps.to_bytes. case_decide; [done|].
  unfold rjust. rewrite length_app, length_replicate. lia.
Qed.

(** [PublicKey(str(pk))] is the key of [bytes(pk)]. *)
Lemma of_str_str (pk : PublicKey) :
  (length (_key pk) <= PublicKeyOps.LENGTH)%nat ->
  PublicKeyOps.of_str (PublicKeyOps.str pk)
  = Ok {| _key := PublicKeyOps.to_bytes pk |}.
Proof.
  intros Hlen. unfold PublicKeyOps.of_str, PublicKeyOps.str.
  rewrite b58decode_b58encode.
  by rewrite decide_True by (by apply to_bytes_length).
Qed.

Lemma of_str_str_well_formed (pk : PublicKey) :
  PublicKeyOps.well_formed pk ->
  PublicKeyOps.of_str (PublicKeyOps.str pk) = Ok pk.
Proof.
  intros Hwf. unfold PublicKeyOps.well_formed in Hwf.
  rewrite of_str_str by lia.
  unfold PublicKeyOps.to_bytes. rewrite decide_True by done. by destruct pk.
Qed.

(** Two keys with the same text have the same bytes. *)
Lemma str_inj (pk other : PublicKey) :
  PublicKeyOps.str pk = PublicKeyOps.str other ->
  PublicKeyOps.to_bytes pk = PublicKeyOps.to_bytes other.
Proof.
  unfold PublicKeyOps.str. intros Heq.
  apply (f_equal base58.b58decode) in Heq.
  rewrite !b58decode_b58encode in Heq. by injection Heq.
Qed.

(** X13: in [fetch], an account whose owner text is the text of a key other
    than the program's is refused. *)
Lemma fetch_foreign_key_refused PROGRAM_ID b64decode
    conn address commitment info (key : PublicKey) :
  get_account_info conn address commitment = Some info ->
  AccountInfoJSON.owner info = PublicKeyOps.str key ->
  PublicKeyOps.eqb key PROGRAM_ID = false ->
  PlayerFactionData.fetch PROGRAM_ID b64decode conn address commitment
  = Raise PlayerFactionData.not_owned.
Proof.
  intros Hinfo Howner Hkey. unfold PlayerFactionData.fetch.
  rewrite Hinfo, decide_True; [reflexivity|].
  rewrite Howner. intros Hstr. apply str_inj in Hstr.
  unfold PublicKeyOps.eqb in Hkey. by rewrite bool_decide_eq_false in Hkey.
Qed.

(** ** [to_json] and [from_json] *)

(** The portable form: the owner as its base-58 text, the integers and
    the padding list as they are. *)
Lemma to_json_fields (v : PlayerFactionData.t) :
  PlayerFactionData.to_json v
  = {| PlayerFactionDataJSON.owner :=
         base58.b58encode (PublicKeyOps.to_bytes (PlayerFactionData.owner v));
       PlayerFactionDataJSON.enlisted_at_timestamp :=
         PlayerFactionData.enlisted_at_timestamp v;
       PlayerFactionDataJSON.faction_id := PlayerFactionData.faction_id v;
       PlayerFactionDataJSON.bump := PlayerFactionData.bump v;
       PlayerFactionDataJSON.padding := PlayerFactionData.padding v |}.
Proof. reflexivity. Qed.

(** The round trip needs no more of the record than a 32-byte owner key. *)
Lemma from_json_well_formed_owner (v : PlayerFactionData.t) :
  PublicKeyOps.well_formed (PlayerFactionData.owner v) ->
  PlayerFactionData.from_json (PlayerFactionData.to_json v) = Ok v.
Proof.
  intros Hwf. unfold PlayerFactionData.from_json, PlayerFactionData.to_json.
  cbn [PlayerFactionDataJSON.owner PlayerFactionDataJSON.enlisted_at_timestamp
       PlayerFactionDataJSON.faction_id PlayerFactionDataJSON.bump
       PlayerFactionDataJSON.padding].
  rewrite (of_str_str_well_formed _ Hwf), bind_Ok. by destruct v.
Qed.

(** With a shorter owner key the record that comes back is [==] to the
    first, its key padded to 32 bytes. *)
Lemma from_json_short_owner (v : PlayerFactionData.t) :
  (length (_key (PlayerFactionData.owner v)) <= PublicKeyOps.LENGTH)%nat ->
  exists w, PlayerFactionData.from_json (PlayerFactionData.to_json v) = Ok w
            /\ record_eqb w v = true.
Proof.
  intros Hlen. unfold PlayerFactionData.from_json, PlayerFactionData.to_json.
  cbn [PlayerFactionDataJSON.owner PlayerFactionDataJSON.enlisted_at_timestamp
       PlayerFactionDataJSON.faction_id PlayerFactionDataJSON.bump
       PlayerFactionDataJSON.padding].
  rewrite (of_str_str _ Hlen), bind_Ok. eexists. split; [reflexivity|].
  unfold record_eqb. cbn.
  rewrite !bool_decide_eq_true_2 by reflexivity.
  rewrite !andb_true_r. unfold PublicKeyOps.eqb.
  apply bool_decide_eq_true_2.
  pose proof (to_bytes_length _ Hlen) as Hlen'.
  unfold PublicKeyOps.to_bytes at 1. cbn [_key]. by rewrite decide_True.
Qed.

(** C6: for a valid record (32-byte owner key, integers in range, five
    padding words), [from_json (to_json v)] returns [v] itself, equal in
    every field. *)
Theorem portable_round_trip (v : PlayerFactionData.t) :
  valid_record v ->
  PlayerFactionData.from_json (PlayerFactionData.to_json v) = Ok v.
Proof.
  intros (Hwf & _). by apply from_json_well_formed_owner.
Qed.

Lemma portable_round_trip_witness :
  PlayerFactionData.from_json (PlayerFactionData.to_json sample_record)
  = Ok sample_record.
Proof.
  apply (portable_round_trip sample_record).
  unfold valid_record, sample_record, PublicKeyOps.well_formed.
  cbn [PlayerFactionData.owner PlayerFactionData.enlisted_at_timestamp
       PlayerFactionData.faction_id PlayerFactionData.bump
       PlayerFactionData.padding].
  split; [reflexivity|].
  split; [lia|]. split; [lia|]. split; [lia|].
  split; [reflexivity|].
  repeat constructor; lia.
Defined.

(** The portable form of the sample record. *)
Example to_json_sample :
  PlayerFactionData.to_json sample_record
  = {| PlayerFactionDataJSON.owner :=
         "TokenkegQfeZyiNwAJbNbGKPFXCWuBvf9Ss623VQ5DA";
       PlayerFactionDataJSON.enlisted_at_timestamp := 1000;
       PlayerFactionDataJSON.faction_id := 3;
       PlayerFactionDataJSON.bump := 7;
       PlayerFactionDataJSON.padding := [0; 0; 0; 0; 0] |}.
Proof. vm_compute. reflexivity. Qed.

(** * Further properties *)

(** ** Little-endian integers *)

Lemma byte_to_Z_residue (z : Z) : byte_to_Z (byte_of_residue z) = z mod 256.
Proof.
  unfold byte_of_residue.
  assert (Hmod : 0 <= z mod 256 <= 255)
    by (pose proof (Z.mod_pos_bound z 256); lia).
  destruct (byte_of_Z_range _ Hmod) as (c & -> & Hc). exact Hc.
Qed.

Lemma int_from_bytes_little_bound (b : bytes) :
  0 <= int_from_bytes_little b < 256 ^ Z.of_nat (length b).
Proof.
  induction b as [|x b IH]; [by vm_compute|].
  cbn [int_from_bytes_little length].
  rewrite Nat2Z.inj_succ, Z.pow_succ_r by lia.
  pose proof (byte_to_Z_range x). lia.
Qed.

Lemma int_to_bytes_little_length (n : nat) (z : Z) :
  length (int_to_bytes_little n z) = n.
Proof.
  revert z. induction n as [|n IH]; intros z; [done|]. cbn. by rewrite IH.
Qed.

Lemma int_from_to_bytes_little (n : nat) (z : Z) :
  int_from_bytes_little (int_to_bytes_little n z) = z mod 256 ^ Z.of_nat n.
Proof.
  revert z. induction n as [|n IH]; intros z.
  - cbn. by rewrite Z.mod_1_r.
  - cbn [int_to_bytes_little int_from_bytes_little].
    rewrite byte_to_Z_residue, IH, Nat2Z.inj_succ, Z.pow_succ_r by lia.
    rewrite Z.rem_mul_r; [reflexivity | lia |].
    apply Z.pow_pos_nonneg; lia.
Qed.

Lemma int_to_from_bytes_little (b : bytes) :
  int_to_bytes_little (length b) (int_from_bytes_little b) = b.
Proof.
  induction b as [|x b IH]; [reflexivity|].
  cbn [length int_from_bytes_little int_to_bytes_little].
  pose proof (byte_to_Z_range x).
  replace (byte_to_Z x + 256 * int_from_bytes_little b)
    with (int_from_bytes_little b * 256 + byte_to_Z x) by lia.
  rewrite byte_of_residue_step. f_equal.
  replace ((int_from_bytes_little b * 256 + byte_to_Z x) / 256)
    with (int_from_bytes_little b); [exact IH|].
  apply (Z.div_unique _ 256 _ (byte_to_Z x)); lia.
Qed.

Lemma as_signed64_range (u : Z) :
  0 <= u < 2 ^ 64 -> - 2 ^ 63 <= as_signed64 u < 2 ^ 63.
Proof. intros Hu. unfold as_signed64. case_decide; lia. Qed.

Lemma as_signed64_mod (z : Z) :
  - 2 ^ 63 <= z < 2 ^ 63 -> as_signed64 (z mod 2 ^ 64) = z.
Proof.
  intros Hz. unfold as_signed64.
  destruct (decide (0 <= z)) as [Hpos|Hneg].
  - rewrite Z.mod_small by lia. by rewrite decide_True by lia.
  - replace (z mod 2 ^ 64) with (z + 2 ^ 64).
    + rewrite decide_False by lia. lia.
    + apply (Z.mod_unique _ _ (-1)); lia.
Qed.

Lemma mod_as_signed64 (u : Z) :
  0 <= u < 2 ^ 64 -> as_signed64 u mod 2 ^ 64 = u.
Proof.
  intros Hu. unfold as_signed64. case_decide.
  - apply Z.mod_small. lia.
  - symmetry. apply (Z.mod_unique _ _ (-1)); lia.
Qed.

(** ** [decode], field by field *)

Lemma reads_exactly_enough {A} (p : bytes -> result (A * bytes)) n f s :
  reads_exactly p n f -> (n <= length s)%nat ->
  p s = Ok (f (take n s), drop n s).
Proof. intros Hp Hn. rewrite (Hp s). by rewrite decide_True. Qed.

Lemma field_of_app {A} (p : bytes -> result (A * bytes)) n f seg rest :
  reads_exactly p n f -> length seg = n ->
  p (seg ++ rest) = Ok (f seg, rest).
Proof.
  intros Hp Hn. rewrite (Hp _), decide_True by (rewrite length_app; lia).
  by rewrite take_app_length', drop_app_length'.
Qed.

Ltac read_field H :=
  rewrite (reads_exactly_enough _ _ _ _ H) by (rewrite ?length_drop; lia);
  rewrite bind_Ok; cbn beta iota zeta.

Ltac read_segment H :=
  rewrite (field_of_app _ _ _ _ _ H)
    by (rewrite ?int_to_bytes_little_length; done);
  rewrite bind_Ok; cbn beta iota zeta.

(** A tagged blob of at least 90 bytes decodes to the record at it. *)
Lemma decode_tagged (data : bytes) :
  take 8 data = PlayerFactionData.discriminator ->
  (90 <= length data)%nat ->
  PlayerFactionData.decode data = Ok (record_at data).
Proof.
  intros Htag Hlen. unfold PlayerFactionData.decode.
  change PlayerFactionData.ACCOUNT_DISCRIMINATOR_SIZE with 8%nat.
  rewrite decide_False by (intros Hne; by apply Hne).
  unfold PlayerFactionData_layout.parse.
  cbn [construct.Array_parse].
  read_field BorshPubkey_reads. read_field I64_reads.
  read_field U8_reads. read_field U8_reads.
  do 5 read_field U64_reads.
  rewrite !bind_Ok. cbn beta iota.
  rewrite !drop_drop. cbn [Nat.add].
  reflexivity.
Qed.

(** Nothing else decodes. *)
Lemma decode_Ok_inv (data : bytes) (v : PlayerFactionData.t) :
  PlayerFactionData.decode data = Ok v ->
  take 8 data = PlayerFactionData.discriminator
  /\ (90 <= length data)%nat
  /\ v = record_at data.
Proof.
  intros Hdec. destruct decode_cases as [f Hf].
  pose proof (Hf data) as Hcase. rewrite Hdec in Hcase.
  destruct (decide (take 8 data <> PlayerFactionData.discriminator))
    as [Hne|Htag]; [discriminate|].
  apply dec_stable in Htag.
  destruct (decide (82 <= length (drop 8 data))%nat) as [Hlen|Hlen];
    [|discriminate].
  rewrite length_drop in Hlen.
  assert (Hlen' : (90 <= length data)%nat) by lia.
  rewrite (decode_tagged data Htag Hlen') in Hdec.
  injection Hdec as <-. done.
Qed.

Lemma record_at_valid (data : bytes) :
  (90 <= length data)%nat -> valid_record (record_at data).
Proof.
  intros Hlen. unfold valid_record, record_at, PublicKeyOps.well_formed.
  cbn [PlayerFactionData.owner PlayerFactionData.enlisted_at_timestamp
       PlayerFactionData.faction_id PlayerFactionData.bump
       PlayerFactionData.padding _key].
  assert (Hword : forall n : nat, (n + 8 <= length data)%nat ->
            0 <= int_from_bytes_little (take 8 (drop n data)) < 2 ^ 64).
  { intros n Hn.
    pose proof (int_from_bytes_little_bound (take 8 (drop n data))) as H.
    rewrite length_take, length_drop, Nat.min_l in H by lia. exact H. }
  assert (Hbyte : forall n : nat, (n + 1 <= length data)%nat ->
            0 <= int_from_bytes_little (take 1 (drop n data)) <= 255).
  { intros n Hn.
    pose proof (int_from_bytes_little_bound (take 1 (drop n data))) as H.
    rewrite length_take, length_drop, Nat.min_l in H by lia.
    change (256 ^ Z.of_nat 1) with 256 in H. lia. }
  split; [rewrite length_take, length_drop; unfold PublicKeyOps.LENGTH; lia|].
  split; [apply as_signed64_range, Hword; lia|].
  split; [apply Hbyte; lia|]. split; [apply Hbyte; lia|].
  split; [reflexivity|].
  repeat constructor; apply Hword; lia.
Qed.

Lemma decode_valid (data : bytes) (v : PlayerFactionData.t) :
  PlayerFactionData.decode data = Ok v -> valid_record v.
Proof.
  intros Hdec. apply decode_Ok_inv in Hdec as (_ & Hlen & ->).
  by apply record_at_valid.
Qed.

(** The blob of a valid record decodes to the record. *)
Lemma decode_blob_of (v : PlayerFactionData.t) :
  valid_record v -> PlayerFactionData.decode (blob_of v) = Ok v.
Proof.
  intros (Hwf & Hts & Hfaction & Hbump & Hlen & Hpad).
  destruct v as [owner ts faction bump padding].
  cbn [PlayerFactionData.owner PlayerFactionData.enlisted_at_timestamp
       PlayerFactionData.faction_id PlayerFactionData.bump
       PlayerFactionData.padding] in *.
  destruct padding as [|p1 [|p2 [|p3 [|p4 [|p5 [|]]]]]]; try discriminate.
  unfold PublicKeyOps.well_formed, PublicKeyOps.LENGTH in Hwf.
  unfold PlayerFactionData.decode, blob_of.
  cbn [PlayerFactionData.owner PlayerFactionData.enlisted_at_timestamp
       PlayerFactionData.faction_id PlayerFactionData.bump
       PlayerFactionData.padding fmap list_fmap concat].
  change PlayerFactionData.ACCOUNT_DISCRIMINATOR_SIZE with 8%nat.
  rewrite take_app_length', drop_app_length' by reflexivity.
  rewrite decide_False by (intros Hne; by apply Hne).
  unfold PlayerFactionData_layout.parse. cbn [construct.Array_parse].
  read_segment BorshPubkey_reads. read_segment I64_reads.
  read_segment U8_reads. read_segment U8_reads.
  do 5 read_segment U64_reads.
  rewrite !bind_Ok. cbn beta iota.
  cbn [PlayerFactionData_layout.owner
       PlayerFactionData_layout.enlisted_at_timestamp
       PlayerFactionData_layout.faction_id PlayerFactionData_layout.bump
       PlayerFactionData_layout.padding].
  rewrite !int_from_to_bytes_little.
  fold (as_signed64 ((ts mod 2 ^ 64) mod 256 ^ Z.of_nat 8)).
  change (256 ^ Z.of_nat 8) with (2 ^ 64). change (256 ^ Z.of_nat 1) with 256.
  rewrite Z.mod_mod by lia. rewrite (as_signed64_mod ts Hts).
  rewrite (Z.mod_small faction), (Z.mod_small bump) by lia.
  repeat match goal with
         | H : Forall _ (_ :: _) |- _ => apply Forall_cons in H as [? H]
         end.
  rewrite !Z.mod_small by lia.
  by destruct owner.
Qed.

Lemma blob_of_length (v : PlayerFactionData.t) :
  valid_record v -> length (blob_of v) = 90%nat.
Proof.
  intros (Hwf & _ & _ & _ & Hlen & _).
  destruct v as [owner ts faction bump padding].
  cbn [PlayerFactionData.owner PlayerFactionData.padding] in *.
  destruct padding as [|p1 [|p2 [|p3 [|p4 [|p5 [|]]]]]]; try discriminate.
  unfold PublicKeyOps.well_formed, PublicKeyOps.LENGTH in Hwf.
  unfold blob_of.
  cbn [PlayerFactionData.owner PlayerFactionData.enlisted_at_timestamp
       PlayerFactionData.faction_id PlayerFactionData.bump
       PlayerFactionData.padding fmap list_fmap concat].
  rewrite !length_app, !int_to_bytes_little_length, Hwf. reflexivity.
Qed.

Lemma segment_join {A} (l : list A) (n m k j mk : nat) :
  j = (n + m)%nat -> mk = (m + k)%nat ->
  take m (drop n l) ++ take k (drop j l) = take mk (drop n l).
Proof. intros -> ->. by rewrite <- drop_drop, take_take_drop. Qed.

Lemma word_of_segment (data : bytes) (n k : nat) :
  (n + k <= length data)%nat ->
  int_to_bytes_little k (int_from_bytes_little (take k (drop n data)))
  = take k (drop n data).
Proof.
  intros Hn.
  assert (Hlen : length (take k (drop n data)) = k)
    by (rewrite length_take, length_drop; lia).
  rewrite <- Hlen at 1. apply int_to_from_bytes_little.
Qed.

(** The first 90 bytes of a tagged blob are the blob of the record at it. *)
Lemma blob_of_record_at (data : bytes) :
  take 8 data = PlayerFactionData.discriminator ->
  (90 <= length data)%nat ->
  blob_of (record_at data) = take 90 data.
Proof.
  intros Htag Hlen. unfold blob_of, record_at.
  cbn [PlayerFactionData.owner PlayerFactionData.enlisted_at_timestamp
       PlayerFactionData.faction_id PlayerFactionData.bump
       PlayerFactionData.padding _key fmap list_fmap concat].
  rewrite mod_as_signed64.
  2:{ pose proof (int_from_bytes_little_bound (take 8 (drop 40 data))) as H.
      rewrite length_take, length_drop, Nat.min_l in H by lia. exact H. }
  rewrite !word_of_segment by lia.
  rewrite app_nil_r, <- Htag.
  rewrite (segment_join data 74 8 8 82 16), (segment_join data 66 8 16 74 24),
    (segment_join data 58 8 24 66 32), (segment_join data 50 8 32 58 40),
    (segment_join data 49 1 40 50 41), (segment_join data 48 1 41 49 42),
    (segment_join data 40 8 42 48 50), (segment_join data 8 32 50 40 82)
    by reflexivity.
  apply (take_take_drop data 8 82).
Qed.

(** X1: [decode] returns a record exactly for the byte strings that start
    with the discriminator and have at least 90 bytes, and the record is
    then the one at the fixed offsets: owner key in bytes 8..39, signed
    little-endian timestamp in 40..47, faction in 48, bump in 49, five
    unsigned little-endian padding words from 50 to 89. *)
Theorem decode_wire_format (data : bytes) (v : PlayerFactionData.t) :
  PlayerFactionData.decode data = Ok v <->
  take 8 data = PlayerFactionData.discriminator
  /\ (90 <= length data)%nat
  /\ v = record_at data.
Proof.
  split; [apply decode_Ok_inv|].
  intros (Htag & Hlen & ->). by apply decode_tagged.
Qed.

(** X3: [decode] is one-to-one on the first 90 bytes: two byte strings
    that decode to the same record have the same first 90 bytes. *)
Theorem decode_one_to_one (data data' : bytes) (v : PlayerFactionData.t) :
  PlayerFactionData.decode data = Ok v ->
  PlayerFactionData.decode data' = Ok v ->
  take 90 data = take 90 data'.
Proof.
  intros Hdec Hdec'.
  apply decode_Ok_inv in Hdec as (Htag & Hlen & Hv).
  apply decode_Ok_inv in Hdec' as (Htag' & Hlen' & Hv').
  rewrite <- (blob_of_record_at data Htag Hlen),
    <- (blob_of_record_at data' Htag' Hlen').
  by rewrite <- Hv, <- Hv'.
Qed.

(** X4: [decode] is onto the valid records: every record with a 32-byte
    owner key, a signed 64-bit timestamp, faction and bump in 0..255 and
    five unsigned 64-bit padding words is what some 90-byte string decodes
    to. *)
Theorem decode_onto_valid_records (v : PlayerFactionData.t) :
  valid_record v ->
  exists data, length data = 90%nat /\ PlayerFactionData.decode data = Ok v.
Proof.
  intros Hvalid. exists (blob_of v).
  split; [by apply blob_of_length | by apply decode_blob_of].
Qed.

(** X5: a record that [decode] returns goes through [to_json] and
    [from_json] unchanged. *)
Theorem decoded_record_portable (data : bytes) (v : PlayerFactionData.t) :
  PlayerFactionData.decode data = Ok v ->
  PlayerFactionData.from_json (PlayerFactionData.to_json v) = Ok v.
Proof.
  intros Hdec. apply from_json_well_formed_owner.
  by apply (decode_valid data v Hdec).
Qed.

Lemma decode_one_to_one_witness :
  take 90 sample_blob = take 90 (sample_blob ++ [x01; x02]).
Proof.
  apply (decode_one_to_one sample_blob (sample_blob ++ [x01; x02])
           sample_record); reflexivity.
Defined.

Lemma decode_onto_valid_records_witness :
  exists data,
    length data = 90%nat /\ PlayerFactionData.decode data = Ok sample_record.
Proof.
  apply (decode_onto_valid_records sample_record).
  unfold valid_record, sample_record, PublicKeyOps.well_formed.
  cbn [PlayerFactionData.owner PlayerFactionData.enlisted_at_timestamp
       PlayerFactionData.faction_id PlayerFactionData.bump
       PlayerFactionData.padding].
  split; [reflexivity|].
  split; [lia|]. split; [lia|]. split; [lia|].
  split; [reflexivity|].
  repeat constructor; lia.
Defined.

Lemma decoded_record_portable_witness :
  PlayerFactionData.from_json (PlayerFactionData.to_json sample_record)
  = Ok sample_record.
Proof.
  apply (decoded_record_portable (sample_blob ++ [x01]) sample_record).
  reflexivity.
Defined.

(** ** [process_withdraw_fuel]: every outcome *)

Lemma getitem_Ok {V} (d : gmap string V) key v :
  getitem d key = Ok v -> d !! key = Some v.
Proof. unfold getitem. destruct (d !! key); [by intros [= ->] | discriminate]. Qed.

Lemma byte_of_Z_Some (z : Z) (c : byte) :
  byte_of_Z z = Some c -> z = byte_to_Z c /\ 0 <= z <= 255.
Proof.
  unfold byte_of_Z. case_decide as Hz; [|discriminate]. intros Hc.
  apply Byte.to_of_N in Hc. unfold byte_to_Z. rewrite Hc.
  pose proof (Byte.to_N_bounded c). lia.
Qed.

Lemma layout_build_inv (b1 b2 b3 b4 b5 : Z) (cs : bytes) :
  construct.CStruct_build ProcessWithdrawFuel.layout
    (<["staking_bump"%string := b1]>
       (<["scorevars_bump"%string := b2]>
          (<["scorevars_ship_bump"%string := b3]>
             (<["escrow_auth_bump"%string := b4]>
                (<["escrow_bump"%string := b5]> ∅)))))
  = Ok cs ->
  exists c1 c2 c3 c4 c5,
    byte_of_Z b1 = Some c1 /\ byte_of_Z b2 = Some c2 /\ byte_of_Z b3 = Some c3
    /\ byte_of_Z b4 = Some c4 /\ byte_of_Z b5 = Some c5
    /\ cs = [c1; c2; c3; c4; c5].
Proof.
  unfold ProcessWithdrawFuel.layout. cbn [construct.CStruct_build].
  unfold getitem, construct.U8_build.
  repeat (rewrite lookup_insert_eq || rewrite lookup_insert_ne by done).
  rewrite !bind_Ok.
  destruct (byte_of_Z b1) as [c1|]; [|discriminate].
  destruct (byte_of_Z b2) as [c2|]; [|discriminate].
  destruct (byte_of_Z b3) as [c3|]; [|discriminate].
  destruct (byte_of_Z b4) as [c4|]; [|discriminate].
  destruct (byte_of_Z b5) as [c5|]; [|discriminate].
  intros [= <-]. by exists c1, c2, c3, c4, c5.
Qed.

(** If one of the five is out of range, the layout refuses to build. *)
Lemma layout_build_out_of_range (b1 b2 b3 b4 b5 : Z) :
  ~ Forall (fun b => 0 <= b <= 255) [b1; b2; b3; b4; b5] ->
  construct.CStruct_build ProcessWithdrawFuel.layout
    (<["staking_bump"%string := b1]>
       (<["scorevars_bump"%string := b2]>
          (<["scorevars_ship_bump"%string := b3]>
             (<["escrow_auth_bump"%string := b4]>
                (<["escrow_bump"%string := b5]> ∅)))))
  = Raise FormatFieldError.
Proof.
  intros Hrange.
  unfold ProcessWithdrawFuel.layout. cbn [construct.CStruct_build].
  unfold getitem, construct.U8_build.
  repeat (rewrite lookup_insert_eq || rewrite lookup_insert_ne by done).
  rewrite !bind_Ok.
  destruct (byte_of_Z b1) as [c1|] eqn:H1; [|reflexivity].
  destruct (byte_of_Z b2) as [c2|] eqn:H2; [|reflexivity].
  destruct (byte_of_Z b3) as [c3|] eqn:H3; [|reflexivity].
  destruct (byte_of_Z b4) as [c4|] eqn:H4; [|reflexivity].
  destruct (byte_of_Z b5) as [c5|] eqn:H5; [|reflexivity].
  exfalso. apply Hrange.
  repeat (constructor; [eapply byte_of_Z_Some; eassumption|]). constructor.
Qed.

Ltac unlist H :=
  apply Forall_forall in H;
  unfold account_roles, account_schema, arg_names in H;
  cbn [fmap list_fmap fst] in H;
  repeat (apply Forall_cons in H as [? H]).

Section build_outcomes.

Variable PROGRAM_ID : PublicKey.

#[local] Abbreviation process_withdraw_fuel :=
  (ProcessWithdrawFuel.process_withdraw_fuel PROGRAM_ID).

Ltac open_getitem H :=
  let Hget := fresh "Hget" in
  apply bind_is_Ok in H as (? & Hget & H);
  apply getitem_Ok in Hget; cbn beta in H.

(** What a returned payload says about the inputs. *)
Lemma process_withdraw_fuel_inv args accounts ix :
  process_withdraw_fuel args accounts = Ok ix ->
  exists k1 k2 k3 k4 k5 k6 k7 k8 k9 k10 k11 b1 b2 b3 b4 b5 c1 c2 c3 c4 c5,
    (accounts !! "player_account"%string = Some k1
     /\ accounts !! "ship_staking_account"%string = Some k2
     /\ accounts !! "score_vars_account"%string = Some k3
     /\ accounts !! "score_vars_ship_account"%string = Some k4
     /\ accounts !! "fuel_token_account_escrow"%string = Some k5
     /\ accounts !! "fuel_token_account_return"%string = Some k6
     /\ accounts !! "fuel_mint"%string = Some k7
     /\ accounts !! "escrow_authority"%string = Some k8
     /\ accounts !! "token_program"%string = Some k9
     /\ accounts !! "clock"%string = Some k10
     /\ accounts !! "ship_mint"%string = Some k11)
    /\ (args !! "staking_bump"%string = Some b1
        /\ args !! "scorevars_bump"%string = Some b2
        /\ args !! "scorevars_ship_bump"%string = Some b3
        /\ args !! "escrow_auth_bump"%string = Some b4
        /\ args !! "escrow_bump"%string = Some b5)
    /\ (byte_of_Z b1 = Some c1 /\ byte_of_Z b2 = Some c2
        /\ byte_of_Z b3 = Some c3 /\ byte_of_Z b4 = Some c4
        /\ byte_of_Z b5 = Some c5)
    /\ ix = {| TransactionInstruction.keys :=
                 [ AccountMeta.Build_t k1 true false;
                   AccountMeta.Build_t k2 false true;
                   AccountMeta.Build_t k3 false false;
                   AccountMeta.Build_t k4 false false;
                   AccountMeta.Build_t k5 false true;
                   AccountMeta.Build_t k6 false true;
                   AccountMeta.Build_t k7 false true;
                   AccountMeta.Build_t k8 false false;
                   AccountMeta.Build_t k9 false false;
                   AccountMeta.Build_t k10 false false;
                   AccountMeta.Build_t k11 false false ];
               TransactionInstruction.program_id := PROGRAM_ID;
               TransactionInstruction.data :=
                 ProcessWithdrawFuel.identifier ++ [c1; c2; c3; c4; c5] |}.
Proof.
  intros H. unfold ProcessWithdrawFuel.process_withdraw_fuel in H.
  do 16 open_getitem H. cbn zeta in H.
  apply bind_is_Ok in H as (cs & Hbuild & H).
  apply layout_build_inv in Hbuild
    as (c1 & c2 & c3 & c4 & c5 & H1 & H2 & H3 & H4 & H5 & ->).
  injection H as <-.
  repeat eexists; eassumption.
Qed.

(** X6: the call returns a payload exactly when [accounts] has all 11
    roles and [args] has all five arguments with values in 0..255. *)
Theorem process_withdraw_fuel_Ok_iff args accounts :
  is_Ok (process_withdraw_fuel args accounts) <->
  (forall role, role ∈ account_roles -> is_Some (accounts !! role))
  /\ (forall name, name ∈ arg_names ->
        exists b, args !! name = Some b /\ 0 <= b <= 255).
Proof.
  split.
  - intros [ix Hix]. apply process_withdraw_fuel_inv in Hix
      as (k1 & k2 & k3 & k4 & k5 & k6 & k7 & k8 & k9 & k10 & k11
          & b1 & b2 & b3 & b4 & b5 & c1 & c2 & c3 & c4 & c5
          & Hk & Hb & Hc & _).
    destruct Hk as (? & ? & ? & ? & ? & ? & ? & ? & ? & ? & ?).
    destruct Hb as (? & ? & ? & ? & ?).
    destruct Hc as (Hc1 & Hc2 & Hc3 & Hc4 & Hc5).
    apply byte_of_Z_Some in Hc1, Hc2, Hc3, Hc4, Hc5.
    split.
    + intros role Hin. each_listed Hin; eauto.
    + intros name Hin. each_listed Hin; eexists; (split; [eassumption|tauto]).
  - intros [Haccounts Hargs]. unlist Haccounts. unlist Hargs.
    repeat match goal with
           | H : is_Some (_ !! _) |- _ => destruct H as [? H]
           | H : exists b, _ /\ _ |- _ => destruct H as (? & H & ?)
           end.
    repeat match goal with
           | H : 0 <= ?b <= 255 |- _ =>
               apply byte_of_Z_range in H as (? & ? & ?)
           end.
    eexists.
    erewrite process_withdraw_fuel_named by eassumption.
    erewrite layout_build_args by eassumption. reflexivity.
Qed.



(** X8: with every role and every argument present, one argument outside
    0..255 makes the call raise [FormatFieldError]: the value is refused,
    not reduced modulo 256. *)
Theorem process_withdraw_fuel_argument_out_of_range args accounts name b :
  (forall role, role ∈ account_roles -> is_Some (accounts !! role)) ->
  (forall other, other ∈ arg_names -> is_Some (args !! other)) ->
  name ∈ arg_names ->
  args !! name = Some b ->
  ~ 0 <= b <= 255 ->
  process_withdraw_fuel args accounts = Raise FormatFieldError.
Proof.
  intros Haccounts Hargs Hname Hb Hrange. unlist Haccounts. unlist Hargs.
  repeat match goal with
         | H : is_Some (_ !! _) |- _ => destruct H as [? H]
         end.
  erewrite process_withdraw_fuel_named by eassumption.
  rewrite layout_build_out_of_range; [reflexivity|].
  intros Hall.
  repeat match goal with
         | H : Forall _ (_ :: _) |- _ => apply Forall_cons in H as [? H]
         end.
  each_listed Hname;
    match goal with
    | H : args !! ?n = Some ?x, H' : args !! ?n = Some b |- _ =>
        rewrite H in H'; injection H' as ->; contradiction
    end.
Qed.

(** X9: the payload tells the inputs: two calls that return the same
    payload had the same five arguments and the same key at each of the
    11 roles. *)
Theorem process_withdraw_fuel_one_to_one args args' accounts accounts' ix :
  process_withdraw_fuel args accounts = Ok ix ->
  process_withdraw_fuel args' accounts' = Ok ix ->
  (forall name, name ∈ arg_names -> args !! name = args' !! name)
  /\ (forall role, role ∈ account_roles ->
        accounts !! role = accounts' !! role).
Proof.
  intros H H'.
  apply process_withdraw_fuel_inv in H
    as (k1 & k2 & k3 & k4 & k5 & k6 & k7 & k8 & k9 & k10 & k11
        & b1 & b2 & b3 & b4 & b5 & c1 & c2 & c3 & c4 & c5
        & Hk & Hb & Hc & ->).
  apply process_withdraw_fuel_inv in H'
    as (k1' & k2' & k3' & k4' & k5' & k6' & k7' & k8' & k9' & k10' & k11'
        & b1' & b2' & b3' & b4' & b5' & c1' & c2' & c3' & c4' & c5'
        & Hk' & Hb' & Hc' & Heq).
  injection Heq. intros. subst.
  destruct Hk as (? & ? & ? & ? & ? & ? & ? & ? & ? & ? & ?).
  destruct Hk' as (? & ? & ? & ? & ? & ? & ? & ? & ? & ? & ?).
  destruct Hb as (? & ? & ? & ? & ?).
  destruct Hb' as (? & ? & ? & ? & ?).
  destruct Hc as (Hc1 & Hc2 & Hc3 & Hc4 & Hc5).
  destruct Hc' as (Hc1' & Hc2' & Hc3' & Hc4' & Hc5').
  apply byte_of_Z_Some in Hc1 as [-> _], Hc2 as [-> _], Hc3 as [-> _],
    Hc4 as [-> _], Hc5 as [-> _].
  apply byte_of_Z_Some in Hc1' as [-> _], Hc2' as [-> _], Hc3' as [-> _],
    Hc4' as [-> _], Hc5' as [-> _].
  split.
  - intros name Hin. each_listed Hin; congruence.
  - intros role Hin. each_listed Hin; congruence.
Qed.

End build_outcomes.

(** Two sample calls, one with keys the function does not read, return the
    same payload. *)
Lemma process_withdraw_fuel_sample_payload :
  exists ix,
    ProcessWithdrawFuel.process_withdraw_fuel sample_program
        sample_args sample_accounts = Ok ix
    /\ ProcessWithdrawFuel.process_withdraw_fuel sample_program
         (<["memo"%string := 7]> sample_args)
         (<["payer"%string := address_1]> sample_accounts) = Ok ix.
Proof. eexists. split; vm_compute; reflexivity. Qed.


Lemma process_withdraw_fuel_argument_out_of_range_witness :
  ProcessWithdrawFuel.process_withdraw_fuel sample_program
      (<["scorevars_bump"%string := -1]> sample_args) sample_accounts
  = Raise FormatFieldError.
Proof.
  apply (process_withdraw_fuel_argument_out_of_range sample_program
           (<["scorevars_bump"%string := -1]> sample_args) sample_accounts
           "scorevars_bump"%string (-1)).
  - intros role Hin. each_listed Hin; eexists; reflexivity.
  - intros other Hin. each_listed Hin; eexists; reflexivity.
  - unfold arg_names. apply list_elem_of_In. cbn [In]. tauto.
  - reflexivity.
  - lia.
Defined.

Lemma process_withdraw_fuel_one_to_one_witness :
  (forall name, name ∈ arg_names ->
     sample_args !! name = <["memo"%string := 7]> sample_args !! name)
  /\ (forall role, role ∈ account_roles ->
        sample_accounts !! role
        = <["payer"%string := address_1]> sample_accounts !! role).
Proof.
  destruct (process_withdraw_fuel_sample_payload) as [ix [Hix Hix']].
  exact (process_withdraw_fuel_one_to_one sample_program _ _ _ _ ix Hix Hix').
Defined.

(** ** [fetch] and [fetch_multiple]: more *)

Section fetch_more.

Variable PROGRAM_ID : PublicKey.
Variable b64decode : string -> result bytes.

#[local] Abbreviation fetch := (PlayerFactionData.fetch PROGRAM_ID b64decode).
#[local] Abbreviation fetch_multiple := (PlayerFactionData.fetch_multiple PROGRAM_ID).

(** X10: a batch over [first ++ second] is the batch over [first]
    followed by the batch over [second], results appended; an error of the
    first batch comes before one of the second. *)
Theorem fetch_multiple_app conn commitment (first second : list PublicKey) :
  fetch_multiple conn (first ++ second) commitment =
    (r1 ← fetch_multiple conn first commitment;
     r2 ← fetch_multiple conn second commitment;
     mret (r1 ++ r2)).
Proof.
  induction first as [|address first IH].
  - cbn [app]. rewrite fetch_multiple_nil, bind_Ok.
    by destruct (fetch_multiple conn second commitment).
  - cbn [app]. rewrite !fetch_multiple_cons, IH.
    destruct (lookup_account conn address commitment) as [acc|].
    + destruct (negb _); [reflexivity|].
      destruct (PlayerFactionData.decode _) as [value|e]; [|reflexivity].
      rewrite !bind_Ok.
      destruct (fetch_multiple conn first commitment) as [r1|e]; [|reflexivity].
      rewrite !bind_Ok.
      by destruct (fetch_multiple conn second commitment).
    + destruct (fetch_multiple conn first commitment) as [r1|e]; [|reflexivity].
      rewrite !bind_Ok.
      by destruct (fetch_multiple conn second commitment).
Qed.

(** The key test of [fetch_multiple] and the text test of [fetch] agree. *)
Lemma owner_tests_agree (owner : PublicKey) :
  PublicKeyOps.eqb owner PROGRAM_ID = true <->
  PublicKeyOps.str owner = PublicKeyOps.str PROGRAM_ID.
Proof.
  unfold PublicKeyOps.eqb. rewrite bool_decide_eq_true. split.
  - intros Heq. unfold PublicKeyOps.str. by rewrite Heq.
  - apply str_inj.
Qed.

(** X12: where the two views of an address agree, [fetch_multiple] on
    that one address gives what [fetch] gives, as a one-slot list: the
    same slot, or the same error. *)
Theorem fetch_agrees_with_batch conn commitment address :
  views_agree b64decode conn commitment address ->
  fetch_multiple conn [address] commitment =
    (slot ← fetch conn address commitment; mret [slot]).
Proof.
  unfold views_agree. intros Hviews.
  rewrite fetch_multiple_cons, fetch_multiple_nil.
  unfold PlayerFactionData.fetch.
  destruct (get_account_info conn address commitment) as [info|],
    (lookup_account conn address commitment) as [acc|];
    try contradiction; [|reflexivity].
  destruct Hviews as [Howner Hdata]. rewrite Howner, Hdata.
  destruct (PublicKeyOps.eqb (AccountInfo.owner acc) PROGRAM_ID) eqn:Heqb.
  - apply owner_tests_agree in Heqb. rewrite decide_False by (by intros Hne).
    cbn [negb]. rewrite !bind_Ok.
    by destruct (PlayerFactionData.decode (AccountInfo.data acc)).
  - rewrite decide_True; [reflexivity|].
    intros Hstr. apply owner_tests_agree in Hstr. congruence.
Qed.

(** X11: in [fetch_multiple], an account whose data [decode] refuses
    makes the whole call raise: no list is returned.  When every address
    before it has a slot, the error is that of [decode] if the account is
    the program's and the ownership error if it is not. *)
Theorem fetch_multiple_undecodable_aborts
    conn commitment addresses (i : nat) address acc e :
  addresses !! i = Some address ->
  lookup_account conn address commitment = Some acc ->
  PlayerFactionData.decode (AccountInfo.data acc) = Raise e ->
  ~ is_Ok (fetch_multiple conn addresses commitment)
  /\ ((forall (j : nat) a, (j < i)%nat -> addresses !! j = Some a ->
         exists slot, slot_of PROGRAM_ID conn commitment a slot) ->
      fetch_multiple conn addresses commitment =
        if PublicKeyOps.eqb (AccountInfo.owner acc) PROGRAM_ID
        then Raise e else Raise PlayerFactionData.not_owned).
Proof.
  intros Hi Hacc Hdec. split.
  - intros [res Hres]. apply fetch_multiple_Ok in Hres.
    destruct (Forall2_lookup_l _ _ _ _ _ Hres Hi) as (slot & _ & Hslot).
    unfold slot_of in Hslot. rewrite Hacc in Hslot.
    destruct Hslot as (value & _ & _ & Hok). congruence.
  - revert addresses Hi.
    induction i as [|i IH]; intros [|a0 addresses] Hi Hbefore;
      try discriminate; rewrite fetch_multiple_cons.
    + injection Hi as ->. rewrite Hacc, Hdec.
      by destruct (PublicKeyOps.eqb _ _).
    + cbn in Hi. rewrite (IH addresses Hi).
      2:{ intros j a Hj Ha. apply (Hbefore (S j) a); [lia | exact Ha]. }
      destruct (Hbefore 0%nat a0) as [slot Hslot]; [lia | reflexivity |].
      unfold slot_of in Hslot.
      destruct (lookup_account conn a0 commitment) as [acc0|].
      * destruct Hslot as (value & _ & Hown0 & Hdec0).
        rewrite Hown0, Hdec0. cbn [negb]. rewrite !bind_Ok.
        by destruct (PublicKeyOps.eqb _ _).
      * by destruct (PublicKeyOps.eqb _ _).
Qed.

(** X2: every record that [decode], [fetch] or [fetch_multiple] returns
    is valid: a 32-byte owner key, a timestamp in the signed 64-bit range,
    faction and bump in 0..255, five padding words in the unsigned 64-bit
    range. *)
Theorem returned_records_valid conn commitment :
  (forall data v, PlayerFactionData.decode data = Ok v -> valid_record v)
  /\ (forall address v,
         fetch conn address commitment = Ok (Some v) -> valid_record v)
  /\ (forall addresses res v,
         fetch_multiple conn addresses commitment = Ok res ->
         Some v ∈ res -> valid_record v).
Proof.
  split; [exact decode_valid|]. split.
  - intros address v. unfold PlayerFactionData.fetch.
    destruct (get_account_info conn address commitment) as [info|];
      [|discriminate].
    case_decide as Howner; [discriminate|].
    intros Hok. apply bind_is_Ok in Hok as (data & _ & Hok).
    apply bind_is_Ok in Hok as (value & Hdec & [= <-]).
    by apply (decode_valid data).
  - intros addresses res v Hres Hin. apply fetch_multiple_Ok in Hres.
    apply list_elem_of_lookup in Hin as [i Hi].
    destruct (Forall2_lookup_r _ _ _ _ _ Hres Hi) as (address & _ & Hslot).
    unfold slot_of in Hslot.
    destruct (lookup_account conn address commitment) as [acc|];
      [|discriminate].
    destruct Hslot as (value & [= <-] & _ & Hdec).
    by apply (decode_valid _ _ Hdec).
Qed.

End fetch_more.

Lemma returned_records_valid_witness :
  valid_record sample_record.
Proof.
  destruct (returned_records_valid sample_program blob_b64decode
              second_store None) as (_ & Hfetch & _).
  apply (Hfetch address_1 sample_record). reflexivity.
Defined.

Lemma fetch_agrees_with_batch_witness :
  PlayerFactionData.fetch_multiple sample_program second_store
      [address_1] None
  = (slot ← PlayerFactionData.fetch sample_program blob_b64decode
              second_store address_1 None;
     mret [slot]).
Proof.
  apply (fetch_agrees_with_batch sample_program blob_b64decode
           second_store None address_1).
  unfold views_agree. cbn. split; reflexivity.
Defined.

Lemma fetch_multiple_undecodable_aborts_witness :
  ~ is_Ok (PlayerFactionData.fetch_multiple sample_program second_store
             [address_1; address_2; address_3] None)
  /\ PlayerFactionData.fetch_multiple sample_program second_store
       [address_1; address_2; address_3] None
     = Raise PlayerFactionData.invalid_discriminator.
Proof.
  destruct (fetch_multiple_undecodable_aborts sample_program second_store
              None [address_1; address_2; address_3] 1 address_2
              {| AccountInfo.owner := sample_program; AccountInfo.data := [] |}
              PlayerFactionData.invalid_discriminator)
    as (Hnot & Hfirst); [reflexivity | reflexivity | reflexivity |].
  split; [exact Hnot|].
  apply Hfirst. intros [|j] a Hj Ha; [|lia].
  injection Ha as <-. exists (Some sample_record).
  exists sample_record. repeat split; reflexivity.
Defined.

Lemma fetch_foreign_key_refused_witness :
  PlayerFactionData.fetch sample_program empty_b64decode sample_store
      address_4 None
  = Raise PlayerFactionData.not_owned.
Proof.
  apply (fetch_foreign_key_refused sample_program empty_b64decode
           sample_store address_4 None
           {| AccountInfoJSON.owner := PublicKeyOps.str system_program_id;
              AccountInfoJSON.data := (EmptyString, "base64"%string) |}
           system_program_id); reflexivity.
Defined.

(** ** [base58]: encoding what was decoded *)

(** A character the decode map knows is the character of its digit. *)
Lemma decode_map_digit (c : ascii) (d : Z) :
  base58.decode_map c = Some d -> 0 <= d < 58 /\ base58.alphabet_at d = c.
Proof.
  unfold base58.decode_map.
  assert (Hgen : forall alphabet pos,
            base58.index_from c alphabet pos = Some d ->
            pos <= d < pos + Z.of_nat (length alphabet)
            /\ nth (Z.to_nat (d - pos)) alphabet "1"%char = c).
  { induction alphabet as [|a alphabet IH]; intros pos; [discriminate|].
    cbn [base58.index_from length]. case_decide as Ha.
    - intros [= <-]. rewrite Z.sub_diag. split; [lia | exact Ha].
    - intros Hrest. apply IH in Hrest as [Hpos Hnth]. split; [lia|].
      replace (Z.to_nat (d - pos)) with (S (Z.to_nat (d - (pos + 1)))) by lia.
      exact Hnth. }
  intros Hc. apply Hgen in Hc as [Hpos Hnth].
  change (Z.of_nat (length base58.BITCOIN_ALPHABET)) with 58 in Hpos.
  split; [lia|]. unfold base58.alphabet_at. by rewrite Z.sub_0_r in Hnth.
Qed.

(** A digit string that decodes holds no white space. *)
Lemma b58decode_int_loop_clean (v : list ascii) (decimal acc : Z) :
  base58.b58decode_int_loop v decimal = Some acc ->
  Forall (fun c => base58.is_space c = false) v.
Proof.
  revert decimal. induction v as [|c v IH]; intros decimal; [constructor|].
  cbn [base58.b58decode_int_loop].
  destruct (base58.decode_map c) as [d|] eqn:Hc; [|discriminate].
  intros Hrest. constructor; [|by eapply IH].
  apply decode_map_digit in Hc as [Hd <-].
  by apply alphabet_digit.
Qed.












(** ** [from_json] then [to_json] *)

(** X14: [to_json] loses nothing of a record with a 32-byte owner key: two
    such records with the same portable form are the same record. *)
Theorem to_json_one_to_one (v w : PlayerFactionData.t) :
  PublicKeyOps.well_formed (PlayerFactionData.owner v) ->
  PublicKeyOps.well_formed (PlayerFactionData.owner w) ->
  PlayerFactionData.to_json v = PlayerFactionData.to_json w ->
  v = w.
Proof.
  intros Hv Hw Heq.
  apply (f_equal PlayerFactionData.from_json) in Heq.
  rewrite (from_json_well_formed_owner v Hv),
    (from_json_well_formed_owner w Hw) in Heq.
  by injection Heq.
Qed.


Lemma to_json_one_to_one_witness : sample_record = sample_record.
Proof.
  apply (to_json_one_to_one sample_record sample_record); reflexivity.
Defined.


Lemma from_json_short_owner_witness :
  exists w,
    PlayerFactionData.from_json (PlayerFactionData.to_json short_owner_record)
    = Ok w
    /\ record_eqb w short_owner_record = true.
Proof.
  apply (from_json_short_owner short_owner_record).
  vm_compute. lia.
Defined.

(** ** The two equivalences, at the sample values *)

Lemma decode_wire_format_witness :
  PlayerFactionData.decode (sample_blob ++ [x01]) = Ok sample_record.
Proof.
  apply (proj2 (decode_wire_format (sample_blob ++ [x01]) sample_record)).
  split; [reflexivity|]. split; [vm_compute; lia | reflexivity].
Defined.

Lemma process_withdraw_fuel_Ok_iff_witness :
  is_Ok (ProcessWithdrawFuel.process_withdraw_fuel sample_program
           sample_args sample_accounts).
Proof.
  apply (proj2 (process_withdraw_fuel_Ok_iff sample_program sample_args
                  sample_accounts)).
  split.
  - intros role Hin. each_listed Hin; eexists; reflexivity.
  - intros name Hin.
    each_listed Hin;
      [exists 254 | exists 255 | exists 0 | exists 253 | exists 1];
      (split; [vm_compute; reflexivity | lia]).
Defined.
